(** * sexditor: the editing engine of src/editor, embedded in Rocq.

    Text is modelled as the sequence of Unicode scalar values of a Rust
    [String] ([str := list Z]); byte offsets are recovered from the UTF-8
    width of each scalar ([utf8_len]).  Cursor coordinates are [u16] in the
    source; they are [nat] here, and every [u16] operation of the source is
    written with its wrap-around (release-build semantics, [as u16] casts
    truncate).  A Rust panic is [None] in the [option] results. *)

From Stdlib Require Import Ascii String.
From Stdlib Require Import List ZArith Lia Bool Arith.
Import ListNotations.
#[local] Set Warnings "-abstract-large-number".

Definition str := list Z.

(** ASCII literals written as Rocq strings, for the examples. *)
Definition of_ascii (s : string) : str :=
  map (fun a => Z.of_nat (nat_of_ascii a)) (list_ascii_of_string s).

(** ** Characters *)

(** [char::len_utf8]. *)
Definition utf8_len (c : Z) : nat :=
  if (c <? 128)%Z then 1
  else if (c <? 2048)%Z then 2
  else if (c <? 65536)%Z then 3
  else 4.

(** [str::len]: the length in bytes. *)
Fixpoint byte_len (s : str) : nat :=
  match s with
  | [] => 0
  | c :: t => utf8_len c + byte_len t
  end.

(** [char::is_whitespace]: the Unicode White_Space property. *)
Definition is_whitespace (c : Z) : bool :=
  ((9 <=? c) && (c <=? 13))%Z || (c =? 32)%Z || (c =? 133)%Z || (c =? 160)%Z
  || (c =? 5760)%Z || ((8192 <=? c) && (c <=? 8202))%Z
  || (c =? 8232)%Z || (c =? 8233)%Z || (c =? 8239)%Z || (c =? 8287)%Z
  || (c =? 12288)%Z.

(** ** Regular expressions

    A compiled [fancy_regex::Regex] is observed only through [find]: the
    leftmost match in the haystack, as a pair (start, end) of offsets.
    fancy_regex reports byte offsets that always lie on character
    boundaries; they are counted in characters here.  [Err] (backtrack
    limit) and [Ok(None)] are both [None].  A match lies inside the
    haystack, which the record carries as a proof obligation. *)
Record Regex := {
  re_find : str -> option (nat * nat);
  re_find_bounds : forall s i j, re_find s = Some (i, j) -> i <= j <= length s
}.

(** Regexes are built here from an anchored matcher: the length of the
    match at the start of a haystack, leftmost-first as fancy_regex
    resolves alternations and greedy repetitions. *)
Record Anchored := {
  an_match : str -> option nat;
  an_bounds : forall s n, an_match s = Some n -> n <= length s
}.

(** Leftmost search: try every start offset in turn. *)
Fixpoint leftmost_from (a : str -> option nat) (i : nat) (s : str) : option (nat * nat) :=
  match a s with
  | Some n => Some (i, i + n)
  | None =>
      match s with
      | [] => None
      | _ :: t => leftmost_from a (S i) t
      end
  end.

Lemma leftmost_from_bounds (a : Anchored) :
  forall s i b e, leftmost_from (an_match a) i s = Some (b, e) ->
  i <= b <= e /\ e <= i + length s.
Proof.
  intros s; induction s as [|c t IH]; intros i b e H; simpl in H.
  - destruct (an_match a []) as [n|] eqn:E; [|discriminate].
    apply an_bounds in E. simpl in E. inversion H; subst; lia.
  - destruct (an_match a (c :: t)) as [n|] eqn:E.
    + apply an_bounds in E. simpl in E. inversion H; subst. simpl; lia.
    + apply IH in H. simpl; lia.
Qed.

(** A pattern without [^]: [find] searches every offset. *)
Definition unanchored (a : Anchored) : Regex.
Proof.
  refine {| re_find := leftmost_from (an_match a) 0 |}.
  intros s i j H. apply leftmost_from_bounds in H. lia.
Defined.

(** A pattern starting with [^]: it only matches at offset 0. *)
Definition caret (a : Anchored) : Regex.
Proof.
  refine {| re_find := fun s => option_map (fun n => (0, n)) (an_match a s) |}.
  intros s i j H. destruct (an_match a s) as [n|] eqn:E; [|discriminate].
  apply an_bounds in E. simpl in H. inversion H; subst. lia.
Defined.

Fixpoint str_prefix (l s : str) : bool :=
  match l, s with
  | [], _ => true
  | x :: l', y :: s' => (x =? y)%Z && str_prefix l' s'
  | _ :: _, [] => false
  end.

Lemma str_prefix_length l : forall s, str_prefix l s = true -> length l <= length s.
Proof.
  induction l as [|x l IH]; intros [|y s] H; simpl in *; try lia; try discriminate.
  apply andb_prop in H as [_ H]. apply IH in H. lia.
Qed.

(** [l1|l2|...] over literals, first alternative first. *)
Fixpoint alt_lits_match (ls : list str) (s : str) : option nat :=
  match ls with
  | [] => None
  | l :: ls' => if str_prefix l s then Some (length l) else alt_lits_match ls' s
  end.

Definition alt_lits (ls : list str) : Anchored.
Proof.
  refine {| an_match := alt_lits_match ls |}.
  induction ls as [|l ls IH]; intros s n H; simpl in H; [discriminate|].
  destruct (str_prefix l s) eqn:E; [|auto].
  inversion H; subst. now apply str_prefix_length.
Defined.

(** Length of the longest prefix whose characters satisfy [p]. *)
Fixpoint run_len (p : Z -> bool) (s : str) : nat :=
  match s with
  | [] => 0
  | c :: t => if p c then S (run_len p t) else 0
  end.

Lemma run_len_le p s : run_len p s <= length s.
Proof. induction s as [|c t IH]; simpl; [lia|]. destruct (p c); lia. Qed.

(** [[class]*]. *)
Definition class_star (p : Z -> bool) : Anchored.
Proof.
  refine {| an_match := fun s => Some (run_len p s) |}.
  intros s n H. inversion H; subst. apply run_len_le.
Defined.

(** [[class]+]. *)
Definition class_plus (p : Z -> bool) : Anchored.
Proof.
  refine {| an_match := fun s => if run_len p s =? 0 then None else Some (run_len p s) |}.
  intros s n H. destruct (run_len p s =? 0); [discriminate|].
  inversion H; subst. apply run_len_le.
Defined.

(** A pattern with no match anywhere. *)
Definition never : Anchored.
Proof.
  refine {| an_match := fun _ => None |}. intros s n H; discriminate.
Defined.

Definition in_range (lo hi c : Z) : bool := ((lo <=? c) && (c <=? hi))%Z.

Module Tokenizer.

Inductive SyntaxKind :=
| Keyword | Identifier | Delimiter | Literal | Function | Type_
  (* [SyntaxKind::Type] *)
| Extra | Whitespace | Comment | Unknown.

Definition SyntaxKind_eqb (a b : SyntaxKind) : bool :=
  match a, b with
  | Keyword, Keyword | Identifier, Identifier | Delimiter, Delimiter
  | Literal, Literal | Function, Function | Type_, Type_ | Extra, Extra
  | Whitespace, Whitespace | Comment, Comment | Unknown, Unknown => true
  | _, _ => false
  end.

Record SyntaxRegex := {
  keyword : Regex;
  identifier : Regex;
  function : Regex;
  delimiters : Regex;
  literal : Regex;
  types : Regex;
  comment : Regex;
  extra : Regex
}.

(** The order of the [try_rule!] invocations in [SyntaxRegex::parse]. *)
Definition rules (rs : SyntaxRegex) : list (Regex * SyntaxKind) :=
  [(comment rs, Comment); (literal rs, Literal); (keyword rs, Keyword);
   (function rs, Function); (types rs, Type_); (identifier rs, Identifier);
   (extra rs, Extra); (delimiters rs, Delimiter)].

(** [input.find(|c: char| !c.is_whitespace())]. *)
Fixpoint find_non_ws (s : str) : option nat :=
  match s with
  | [] => None
  | c :: t =>
      if is_whitespace c then option_map S (find_non_ws t) else Some 0
  end.

(** The chain of [try_rule!]: the first rule whose leftmost match starts
    at offset 0 decides the token; a zero-length match yields the next
    character as [Unknown].  [None] when no rule applies. *)
Fixpoint try_rules (rl : list (Regex * SyntaxKind)) (input : str)
  : option ((str * SyntaxKind) * str) :=
  match rl with
  | [] => None
  | (re, kind) :: rl' =>
      match re_find re input with
      | Some (0, end_) =>
          if end_ =? 0 then Some ((firstn 1 input, Unknown), skipn 1 input)
          else Some ((firstn end_ input, kind), skipn end_ input)
      | _ => try_rules rl' input
      end
  end.

(** The [while !input.is_empty()] loop of [SyntaxRegex::parse], run on a
    fuel bound; running out of fuel is [None]. *)
Fixpoint parse_loop (rs : SyntaxRegex) (fuel : nat) (input : str)
  : option (list (str * SyntaxKind)) :=
  match input with
  | [] => Some []
  | _ :: _ =>
      match fuel with
      | O => None
      | S fuel' =>
          match find_non_ws input with
          | None => Some [(input, Whitespace)]
          | Some non_ws =>
              if 0 <? non_ws then
                option_map (cons (firstn non_ws input, Whitespace))
                  (parse_loop rs fuel' (skipn non_ws input))
              else
                match try_rules (rules rs) input with
                | Some (tok, rest) =>
                    option_map (cons tok) (parse_loop rs fuel' rest)
                | None =>
                    option_map (cons (firstn 1 input, Unknown))
                      (parse_loop rs fuel' (skipn 1 input))
                end
          end
      end
  end.

(** [SyntaxRegex::parse]: every iteration consumes at least one character,
    so [length text] iterations bound the loop. *)
Definition parse (rs : SyntaxRegex) (text : str) : option (list (str * SyntaxKind)) :=
  parse_loop rs (length text) text.

(** ** Reading of the spec (section 4.4, step 2): the first rule, in priority
    order, whose pattern matches at offset 0, with the end of that match. *)
Fixpoint first_match_rule (rl : list (Regex * SyntaxKind)) (input : str)
  : option (SyntaxKind * nat) :=
  match rl with
  | [] => None
  | (re, kind) :: rl' =>
      match re_find re input with
      | Some (0, end_) => Some (kind, end_)
      | _ => first_match_rule rl' input
      end
  end.

(** Concatenation of the token texts. *)
Definition tokens_text (toks : list (str * SyntaxKind)) : str := flat_map fst toks.

(** Does the leftmost match of [re] start at offset 0? *)
Definition starts_at0 (re : Regex) (s : str) : bool :=
  match re_find re s with
  | Some (0, _) => true
  | _ => false
  end.

Definition ident_char (c : Z) : bool :=
  in_range 65 90 c || in_range 97 122 c || (c =? 95)%Z.

(** keyword = [fn|let] and identifier = [[A-Za-z_]+], the rule set of the
    spec's priority example; the other six rules are left open. *)
Definition kw_fn_let : Regex := unanchored (alt_lits [of_ascii "fn"; of_ascii "let"]).
Definition ident_plus : Regex := unanchored (class_plus ident_char).

Definition example_rules (comment_ literal_ function_ types_ extra_ delimiters_ : Regex)
  : SyntaxRegex :=
  {| keyword := kw_fn_let; identifier := ident_plus; function := function_;
     delimiters := delimiters_; literal := literal_; types := types_;
     comment := comment_; extra := extra_ |}.

Definition no_rule : Regex := unanchored never.

(** identifier = [[A-Za-z_]*], which matches the empty string everywhere,
    and delimiters = [\(]. *)
Definition empty_ident_rules : SyntaxRegex :=
  {| keyword := no_rule; identifier := unanchored (class_star ident_char);
     function := no_rule; delimiters := unanchored (alt_lits [of_ascii "("]);
     literal := no_rule; types := no_rule; comment := no_rule; extra := no_rule |}.

End Tokenizer.

(** ** Buffer and byte offsets: src/editor/text_actions.rs *)
Module Buffer.

(** [Position { x: u16, y: u16 }]: column and line. *)
Record Position := { x : nat; y : nat }.

(** [str::split_inclusive('\n')]. *)
Fixpoint split_inclusive_nl (s : str) : list str :=
  match s with
  | [] => []
  | c :: t =>
      if (c =? 10)%Z then [c] :: split_inclusive_nl t
      else match split_inclusive_nl t with
           | [] => [[c]]
           | l :: ls => (c :: l) :: ls
           end
  end.

Definition ends_with (c : Z) (l : str) : bool :=
  match rev l with
  | d :: _ => (d =? c)%Z
  | [] => false
  end.

(** [str::lines]: strip a trailing ["\n"], then a ["\r"] before it. *)
Definition strip_line_ending (l : str) : str :=
  if ends_with 10 l then
    let l' := removelast l in
    if ends_with 13 l' then removelast l' else l'
  else l.

Definition lines (s : str) : list str := map strip_line_ending (split_inclusive_nl s).

(** [line.char_indices().nth(x).map(|(byte_idx, _)| byte_idx).unwrap_or(line.len())]. *)
Definition char_byte_index (line : str) (x : nat) : nat :=
  if x <? length line then byte_len (firstn x line) else byte_len line.

(** The [for (i, line) in self.file_text.lines().enumerate()] loop. *)
Fixpoint byte_offset_from (ls : list str) (i : nat) (pos : Position) : nat :=
  match ls with
  | [] => 0
  | line :: ls' =>
      if i =? y pos then char_byte_index line (x pos)
      else byte_len line + 1 + byte_offset_from ls' (S i) pos
  end.

Definition get_byte_offset (file_text : str) (pos : Position) : nat :=
  byte_offset_from (lines file_text) 0 pos.

(** Split a string at a byte index; [None] when the index is past the end
    or inside a character (where Rust's slicing panics). *)
Fixpoint split_at_byte (s : str) (idx : nat) : option (str * str) :=
  match idx, s with
  | 0, _ => Some ([], s)
  | S _, [] => None
  | S _, c :: t =>
      if idx <? utf8_len c then None
      else option_map (fun '(a, b) => (c :: a, b)) (split_at_byte t (idx - utf8_len c))
  end.

(** [String::insert]: asserts [self.is_char_boundary(idx)]. *)
Definition string_insert (s : str) (idx : nat) (c : Z) : option str :=
  match split_at_byte s idx with
  | Some (a, b) => Some (a ++ c :: b)
  | None => None
  end.

(** [String::remove]: panics unless a character starts at [idx]. *)
Definition string_remove (s : str) (idx : nat) : option str :=
  match split_at_byte s idx with
  | Some (a, _ :: b) => Some (a ++ b)
  | _ => None
  end.

(** [String::pop], its result discarded. *)
Definition string_pop (s : str) : str := removelast s.

Definition insert_char (file_text : str) (pos : Position) (c : Z) : option str :=
  string_insert file_text (get_byte_offset file_text pos) c.

Definition remove_char (file_text : str) (pos : Position) : option str :=
  let byte_offset := get_byte_offset file_text pos in
  if byte_len file_text <=? byte_offset then Some (string_pop file_text)
  else string_remove file_text (get_byte_offset file_text pos).

End Buffer.

(** ** The editor state and cursor motion: src/editor/mod.rs and
    src/editor/cursor_actions.rs *)
Module Editor.
Import Buffer.

Inductive EditorMode := Normal | Visual | Insert | Command.

Inductive KeyCode := Char (c : Z) | Enter | Esc | Backspace | OtherKey.

Inductive LogMessage := Error (m : str) | Warn (m : str) | Info (m : str).

Inductive CursorDirection := Up | Down | Left | Right.

(** The fields of [Editor] the key handler reads or writes ([frame_area]
    and [scroll] belong to the renderer). *)
Record Editor := {
  cursor : Position;
  mode : EditorMode;
  file_text : str;
  file_path : str;
  keyhistory : list KeyCode;
  exit : bool;
  command : str;
  theme_path : str;
  message_queue : LogMessage
}.

Definition set_cursor (e : Editor) (p : Position) : Editor :=
  {| cursor := p; mode := mode e; file_text := file_text e; file_path := file_path e;
     keyhistory := keyhistory e; exit := exit e; command := command e;
     theme_path := theme_path e; message_queue := message_queue e |}.

Definition set_mode (e : Editor) (m : EditorMode) : Editor :=
  {| cursor := cursor e; mode := m; file_text := file_text e; file_path := file_path e;
     keyhistory := keyhistory e; exit := exit e; command := command e;
     theme_path := theme_path e; message_queue := message_queue e |}.

Definition set_text (e : Editor) (t : str) : Editor :=
  {| cursor := cursor e; mode := mode e; file_text := t; file_path := file_path e;
     keyhistory := keyhistory e; exit := exit e; command := command e;
     theme_path := theme_path e; message_queue := message_queue e |}.

Definition set_command (e : Editor) (c : str) : Editor :=
  {| cursor := cursor e; mode := mode e; file_text := file_text e; file_path := file_path e;
     keyhistory := keyhistory e; exit := exit e; command := c;
     theme_path := theme_path e; message_queue := message_queue e |}.

Definition set_exit (e : Editor) : Editor :=
  {| cursor := cursor e; mode := mode e; file_text := file_text e; file_path := file_path e;
     keyhistory := keyhistory e; exit := true; command := command e;
     theme_path := theme_path e; message_queue := message_queue e |}.

Definition set_theme_path (e : Editor) (t : str) : Editor :=
  {| cursor := cursor e; mode := mode e; file_text := file_text e; file_path := file_path e;
     keyhistory := keyhistory e; exit := exit e; command := command e;
     theme_path := t; message_queue := message_queue e |}.

Definition log (e : Editor) (msg : LogMessage) : Editor :=
  {| cursor := cursor e; mode := mode e; file_text := file_text e; file_path := file_path e;
     keyhistory := keyhistory e; exit := exit e; command := command e;
     theme_path := theme_path e; message_queue := msg |}.

Definition push_key (e : Editor) (k : KeyCode) : Editor :=
  {| cursor := cursor e; mode := mode e; file_text := file_text e; file_path := file_path e;
     keyhistory := keyhistory e ++ [k]; exit := exit e; command := command e;
     theme_path := theme_path e; message_queue := message_queue e |}.

(** [u16] arithmetic: [+] and [-] wrap, [as u16] truncates. *)
Definition u16 (n : nat) : nat := n mod 65536.
Definition u16_sub (a b : nat) : nat := (a + 65536 - b) mod 65536.
(** [u16::try_from(n).unwrap_or_default()]. *)
Definition u16_try_from (n : nat) : nat := if n <? 65536 then n else 0.

(** [.lines().enumerate().find(|(idx, _)| *idx == i).map(..).unwrap_or_default()],
    with the index as a machine integer. *)
Fixpoint nth_line (ls : list str) (i : Z) : str :=
  match ls with
  | [] => []
  | l :: ls' => if (i =? 0)%Z then l else nth_line ls' (i - 1)
  end.

Definition line_at_cursor (e : Editor) : str :=
  nth_line (lines (file_text e)) (Z.of_nat (y (cursor e))).

(** [self.cursor.y as usize + y as usize] with [y: i16] sign-extended,
    wrapping in [usize] (64 bits). *)
Definition line_from_cursor (e : Editor) (dy : Z) : str :=
  nth_line (lines (file_text e)) ((Z.of_nat (y (cursor e)) + dy) mod 2 ^ 64).

Definition cursor_at_end_of_file (e : Editor) : bool :=
  length (lines (file_text e)) + 1 <=? y (cursor e).
Definition cursor_at_start_of_file (e : Editor) : bool := y (cursor e) =? 0.
Definition cursor_at_start_of_line (e : Editor) : bool := x (cursor e) =? 0.
Definition cursor_at_end_of_line (e : Editor) : bool :=
  length (line_at_cursor e) <=? x (cursor e).

Definition move_to_next_line (e : Editor) : Editor :=
  set_cursor e {| x := 0; y := u16 (y (cursor e) + 1) |}.

Definition move_to_previous_line (e : Editor) : Editor :=
  set_cursor e {| x := u16 (length (line_from_cursor e (-1)));
                  y := u16_sub (y (cursor e)) 1 |}.

(** The column clamp after a vertical step. *)
Definition clamp_column (e : Editor) : Editor :=
  let new_line_char_count := u16 (length (line_at_cursor e)) in
  if new_line_char_count <? x (cursor e)
  then set_cursor e {| x := new_line_char_count; y := y (cursor e) |}
  else e.

Definition move_cursor (e : Editor) (dir : CursorDirection) : Editor :=
  match dir with
  | Up =>
      if cursor_at_start_of_file e then e
      else clamp_column (set_cursor e {| x := x (cursor e); y := y (cursor e) - 1 |})
  | Down =>
      if cursor_at_end_of_file e then e
      else clamp_column (set_cursor e {| x := x (cursor e); y := u16 (y (cursor e) + 1) |})
  | Left =>
      if cursor_at_start_of_file e && cursor_at_start_of_line e then e
      else if cursor_at_start_of_line e then move_to_previous_line e
      else set_cursor e {| x := x (cursor e) - 1; y := y (cursor e) |}
  | Right =>
      if cursor_at_end_of_line e then move_to_next_line e
      else set_cursor e {| x := u16 (x (cursor e) + 1); y := y (cursor e) |}
  end.

(** [move_to_end_of_pat]: the slice starts at the cursor's character
    column; the cursor advances by the characters of [slice[..mat.end()]]. *)
Definition move_to_end_of_pat (e : Editor) (pat : Regex) : Editor :=
  let line := line_at_cursor e in
  let slice := skipn (x (cursor e)) line in
  match re_find pat slice with
  | Some (_, mat_end) =>
      set_cursor e {| x := u16 (x (cursor e) + u16 mat_end); y := y (cursor e) |}
  | None => e
  end.

(** [move_to_start_of_pat]: search the reversed text before the cursor. *)
Definition move_to_start_of_pat (e : Editor) (pat : Regex) : Editor :=
  let line := line_at_cursor e in
  let before := firstn (x (cursor e)) line in
  let reversed := rev before in
  match re_find pat reversed with
  | Some (_, mat_end) =>
      set_cursor e {| x := x (cursor e) - u16 mat_end; y := y (cursor e) |}
  | None => e
  end.

(** Unicode general categories, by major class. *)
Inductive GeneralCategory :=
| Letter | Mark | Number | Punctuation | Symbol | Separator | Other.

Definition gc_eqb (a b : GeneralCategory) : bool :=
  match a, b with
  | Letter, Letter | Mark, Mark | Number, Number | Punctuation, Punctuation
  | Symbol, Symbol | Separator, Separator | Other, Other => true
  | _, _ => false
  end.

(** [(\p{Z}+|\p{P}+|\p{N}+|\p{L}+|\p{S}+)] at the start of a haystack:
    the classes are disjoint, so the alternative that matches is the one
    of the first character's class, repeated greedily. *)
Definition word_match (gc : Z -> GeneralCategory) (s : str) : option nat :=
  match s with
  | [] => None
  | c :: _ =>
      match gc c with
      | Separator | Punctuation | Number | Letter | Symbol =>
          Some (run_len (fun d => gc_eqb (gc d) (gc c)) s)
      | _ => None
      end
  end.

Definition word_anchored (gc : Z -> GeneralCategory) : Anchored.
Proof.
  refine {| an_match := word_match gc |}.
  intros s n H. unfold word_match in H. destruct s as [|c t]; [discriminate|].
  assert (Hr := run_len_le (fun d => gc_eqb (gc d) (gc c)) (c :: t)).
  destruct (gc c); try discriminate; injection H as <-; exact Hr.
Defined.

(** The motion pattern of the ['e'] and ['b'] commands. *)
Definition word_pattern (gc : Z -> GeneralCategory) : Regex := unanchored (word_anchored gc).

(** The general category of ASCII code points (code points above U+007F
    are not classified by this table and map to [Other]); used for the
    concrete examples. *)
Definition ascii_gc (c : Z) : GeneralCategory :=
  if in_range 48 57 c then Number
  else if in_range 65 90 c || in_range 97 122 c then Letter
  else if (c =? 32)%Z then Separator
  else if existsb (Z.eqb c) [36; 43; 60; 61; 62; 94; 96; 124; 126]%Z then Symbol
  else if in_range 33 126 c then Punctuation
  else Other.

(** The ASCII code of a character literal. *)
Definition chr (a : ascii) : Z := Z.of_nat (nat_of_ascii a).

Definition str_eqb (a b : str) : bool := str_prefix a b && (length a =? length b).

Fixpoint trim_start (s : str) : str :=
  match s with
  | c :: t => if is_whitespace c then trim_start t else s
  | [] => []
  end.

(** [str::trim]. *)
Definition trim (s : str) : str := rev (trim_start (rev (trim_start s))).

Definition last_key (l : list KeyCode) : option KeyCode :=
  match rev l with
  | k :: _ => Some k
  | [] => None
  end.

Definition end_command (e : Editor) : Editor := set_command (set_mode e Normal) [].

Definition set_theme (e : Editor) (name : str) : Editor :=
  set_theme_path e (of_ascii "theme/" ++ name ++ of_ascii ".toml").

(** An editor state with the given text, cursor, mode and command line,
    for the concrete examples. *)
Definition mk_editor (text : str) (p : Position) (m : EditorMode) (cmd : str) : Editor :=
  {| cursor := p; mode := m; file_text := text; file_path := of_ascii "main.rs";
     keyhistory := []; exit := false; command := cmd; theme_path := [];
     message_queue := Info [] |}.

Section KeyHandler.

(** The filesystem collaborator: [std::fs::read_to_string],
    [std::fs::File::create] and [write_all], each succeeding or failing. *)
Variable read_to_string : str -> option str.
Variable file_create : str -> bool.
Variable write_all : str -> str -> bool.
(** The general category of a code point, as the regex engine knows it. *)
Variable gc : Z -> GeneralCategory.

(** [Editor::new]: the defaults, then [open_new_file]. *)
Definition new_editor (path : option str) : Editor :=
  let '(text, p) :=
    match path with
    | None => ([], of_ascii "[scratch]")
    | Some p =>
        match read_to_string p with
        | Some content => (content, p)
        | None => ([], p)
        end
    end in
  {| cursor := {| x := 0; y := 0 |}; mode := Normal; file_text := text; file_path := p;
     keyhistory := []; exit := false; command := []; theme_path := [];
     message_queue := Info [] |}.

(** [save_file]: both steps end in [.expect(..)], which panics. *)
Definition save_file (e : Editor) : option unit :=
  if file_create (file_path e) then
    if write_all (file_path e) (file_text e) then Some tt else None
  else None.

Definition execute_command (e : Editor) : option Editor :=
  let cmd := trim (command e) in
  let r :=
    if str_eqb cmd (of_ascii "q") then Some (set_exit e)
    else if str_eqb cmd (of_ascii "w") then option_map (fun _ => e) (save_file e)
    else if str_eqb cmd (of_ascii "x") then option_map (fun _ => set_exit e) (save_file e)
    else if str_eqb cmd (of_ascii "e") then Some (log e (Error (of_ascii "aaaa")))
    else if str_prefix (of_ascii "theme ") cmd then Some (set_theme e (skipn 6 cmd))
    else Some e in
  option_map end_command r.

Definition handle_normal_char (e : Editor) (c : Z) : option Editor :=
  if (c =? chr "q")%Z then Some (set_exit e)
  else if (c =? chr "i")%Z then Some (set_mode e Insert)
  else if (c =? chr "v")%Z then Some (set_mode e Visual)
  else if (c =? chr ":")%Z then Some (set_mode e Command)
  else if (c =? chr "k")%Z then Some (move_cursor e Up)
  else if (c =? chr "j")%Z then Some (move_cursor e Down)
  else if (c =? chr "h")%Z then Some (move_cursor e Left)
  else if (c =? chr "l")%Z then Some (move_cursor e Right)
  else if (c =? chr "d")%Z then option_map (set_text e) (remove_char (file_text e) (cursor e))
  else if (c =? chr "o")%Z then
    match insert_char (file_text e)
            {| x := u16 (u16_try_from (byte_len (line_at_cursor e)) + 1);
               y := y (cursor e) |} 10 with
    | Some t => Some (set_mode (move_cursor (set_text e t) Down) Insert)
    | None => None
    end
  else if (c =? chr "O")%Z then
    match insert_char (file_text e)
            {| x := u16 (u16_try_from (byte_len (line_from_cursor e (-1))) + 1);
               y := u16_sub (y (cursor e)) 1 |} 10 with
    | Some t => Some (set_mode (set_text e t) Insert)
    | None => None
    end
  else if (c =? chr "A")%Z then
    Some (set_mode (set_cursor e {| x := u16_try_from (byte_len (line_at_cursor e));
                                    y := y (cursor e) |}) Insert)
  else if (c =? chr "0")%Z then Some (set_cursor e {| x := 0; y := y (cursor e) |})
  else if (c =? chr "e")%Z then Some (move_to_end_of_pat e (word_pattern gc))
  else if (c =? chr "b")%Z then Some (move_to_start_of_pat e (word_pattern gc))
  else if (c =? chr "g")%Z then
    match last_key (keyhistory e) with
    | Some (Char g) => if (g =? chr "g")%Z then Some (set_cursor e {| x := 0; y := 0 |})
                       else Some e
    | _ => Some e
    end
  else Some e.

(** [handle_key_event]; [None] is a panic. *)
Definition handle_key_event (e : Editor) (k : KeyCode) : option Editor :=
  let r :=
    match mode e with
    | Normal =>
        match k with
        | Char c => handle_normal_char e c
        | _ => Some e
        end
    | Visual =>
        match k with
        | Char c => if (c =? chr "v")%Z then Some (set_mode e Normal) else Some e
        | Esc => Some (set_mode e Normal)
        | _ => Some e
        end
    | Insert =>
        match k with
        | Char c =>
            match insert_char (file_text e) (cursor e) c with
            | Some t => Some (move_cursor (set_text e t) Right)
            | None => None
            end
        | Enter =>
            match insert_char (file_text e) (cursor e) 10 with
            | Some t => Some (set_cursor (set_text e t)
                                {| x := 0; y := u16 (y (cursor e) + 1) |})
            | None => None
            end
        | Backspace =>
            match remove_char (file_text e)
                    {| x := u16_sub (x (cursor e)) 1; y := y (cursor e) |} with
            | Some t => Some (move_cursor (set_text e t) Left)
            | None => None
            end
        | Esc => Some (set_mode e Normal)
        | OtherKey => Some e
        end
    | Command =>
        match k with
        | Enter => execute_command e
        | Esc => Some (end_command e)
        | Char c => Some (set_command e (command e ++ [c]))
        | Backspace => Some (set_command e (removelast (command e)))
        | OtherKey => Some e
        end
    end in
  option_map (fun e' => push_key e' k) r.

End KeyHandler.

End Editor.

(** ** Vocabulary for statements about line structure *)
Module BufferLines.
Import Buffer.

(** Text without a carriage return, where [str::lines] splits on ["\n"]
    alone. *)
Definition no_cr (s : str) : bool := forallb (fun c => negb (c =? 13)%Z) s.

(** A line as [str::lines] yields it from such text: no ["\n"], no ["\r"]. *)
Definition plain_line (l : str) : Prop := ~ In 10%Z l /\ ~ In 13%Z l.

(** Empty, or ending in ["\n"]: [str::lines] yields no final partial line. *)
Definition trailing_newline (s : str) : bool :=
  match rev s with
  | [] => true
  | d :: _ => (d =? 10)%Z
  end.

(** Complete lines, each followed by its ["\n"]. *)
Definition pre_text (ls : list str) : str := flat_map (fun l => l ++ [10%Z]) ls.

(** The characters before column [x] of line [y]: the lines above with
    their newlines, then the first [x] characters of line [y]. *)
Definition line_start_prefix (s : str) (pos : Position) : str :=
  pre_text (firstn (y pos) (lines s)) ++ firstn (x pos) (nth (y pos) (lines s) []).

End BufferLines.

(** ** Shapes of the tokens [SyntaxRegex::parse] emits *)
Module TokenShape.
Import Tokenizer.

(** A token is non-empty; a [Whitespace] token is whitespace only; any
    other token starts with a non-whitespace character, and an [Unknown]
    token is a single character. *)
Definition token_ok (tk : str * SyntaxKind) : bool :=
  let '(t, k) := tk in
  match t with
  | [] => false
  | c :: _ =>
      if SyntaxKind_eqb k Whitespace then forallb is_whitespace t
      else negb (is_whitespace c) && (negb (SyntaxKind_eqb k Unknown) || (length t =? 1))
  end.

(** No two [Whitespace] tokens in a row. *)
Fixpoint ws_separated (toks : list (str * SyntaxKind)) : bool :=
  match toks with
  | (_, k1) :: ((_, k2) :: _) as rest =>
      negb (SyntaxKind_eqb k1 Whitespace && SyntaxKind_eqb k2 Whitespace)
      && ws_separated rest
  | _ => true
  end.

(** No rule of [rules] has kind [Whitespace] or [Unknown]. *)
Definition rule_kinds_ok (rl : list (Regex * SyntaxKind)) : bool :=
  forallb (fun rk => negb (SyntaxKind_eqb (snd rk) Whitespace
                           || SyntaxKind_eqb (snd rk) Unknown)) rl.

End TokenShape.

(** ** Colours: src/theme.rs *)
Module Theme.

(** [Colour { r, g, b: u8 }]. *)
Record Colour := { r : Z; g : Z; b : Z }.

Record ColourTheme := {
  keyword : Colour; ident : Colour; lit : Colour; delim : Colour; types : Colour;
  extra : Colour; background : Colour; function : Colour; comment : Colour
}.

(** [char::to_digit(16)]: ['0'..='9'], then the letter case folded by
    [| 0x20] and checked against ['a'..='f']. *)
Definition to_digit16 (c : Z) : option Z :=
  if in_range 48 57 c then Some (c - 48)%Z
  else if in_range 97 102 (Z.lor c 32) then Some (Z.lor c 32 - 87)%Z
  else None.

(** The digit loop of [u8::from_str_radix], with its overflow checks.
    The source walks bytes; a character above U+007F is no digit, and
    neither is any byte of its encoding, so walking characters gives the
    same verdict. *)
Fixpoint digits_acc (acc : Z) (ds : str) : option Z :=
  match ds with
  | [] => Some acc
  | d :: t =>
      match to_digit16 d with
      | Some v => if (acc * 16 + v <? 256)%Z then digits_acc (acc * 16 + v)%Z t else None
      | None => None
      end
  end.

(** [u8::from_str_radix(src, 16)]: [None] is [Err]. An empty input, or
    a lone sign, is an error; a leading ['+'] is skipped; an unsigned type
    keeps a leading ['-'], which is then no digit. *)
Definition u8_from_str_radix16 (src : str) : option Z :=
  match src with
  | [] => None
  | [c] => if (c =? 43)%Z || (c =? 45)%Z then None else digits_acc 0 src
  | c :: t => if (c =? 43)%Z then digits_acc 0 t else digits_acc 0 src
  end.

(** [&s[lo..=hi]], i.e. [&s[lo..hi + 1]]: [None] is the panic when an end
    is past the string or inside a character. *)
Definition str_slice (s : str) (lo hi : nat) : option str :=
  match Buffer.split_at_byte s lo with
  | Some (_, rest) =>
      match Buffer.split_at_byte rest (S hi - lo) with
      | Some (mid, _) => Some mid
      | None => None
      end
  | None => None
  end.

Inductive Outcome := Panic | Err | Ok (c : Colour).

(** [u8::from_str_radix(&s[lo..=hi], 16)?], then the rest of the parse. *)
Definition parse_channel (s : str) (lo hi : nat) (k : Z -> Outcome) : Outcome :=
  match str_slice s lo hi with
  | None => Panic
  | Some t =>
      match u8_from_str_radix16 t with
      | Some v => k v
      | None => Err
      end
  end.

Definition starts_with_hash (s : str) : bool :=
  match s with
  | c :: _ => (c =? 35)%Z
  | [] => false
  end.

(** [impl FromStr for Colour]. *)
Definition colour_from_str (s : str) : Outcome :=
  if starts_with_hash s then
    parse_channel s 1 2 (fun r =>
    parse_channel s 3 4 (fun g =>
    parse_channel s 5 6 (fun b => Ok {| r := r; g := g; b := b |})))
  else
    parse_channel s 0 1 (fun r =>
    parse_channel s 2 3 (fun g =>
    parse_channel s 4 5 (fun b => Ok {| r := r; g := g; b := b |}))).

(** Two lowercase hex digits of a byte, for stating round trips. *)
Definition hex_char (d : Z) : Z := if (d <? 10)%Z then (48 + d)%Z else (87 + d)%Z.
Definition hex2 (n : Z) : str := [hex_char (n / 16); hex_char (n mod 16)].

End Theme.

(** ** Syntax highlighting: [colour_text] in src/editor/text_colour.rs *)
Module Render.
Import Tokenizer.

(** The foreground colour of a token kind. *)
Definition kind_colour (th : Theme.ColourTheme) (k : SyntaxKind) : Theme.Colour :=
  match k with
  | Keyword => Theme.keyword th
  | Identifier => Theme.ident th
  | Delimiter | Whitespace => Theme.delim th
  | Type_ => Theme.types th
  | Extra | Unknown => Theme.extra th
  | Literal => Theme.lit th
  | Function => Theme.function th
  | Comment => Theme.comment th
  end.

(** [Span::raw(val).style(Style::new().fg(..))]: text and foreground. *)
Definition Span : Type := (str * Theme.Colour)%type.

Definition colour_line (th : Theme.ColourTheme) (syntax : SyntaxRegex) (line : str)
  : option (list Span) :=
  option_map (map (fun '(v, k) => (v, kind_colour th k))) (parse syntax line).

Fixpoint colour_lines (th : Theme.ColourTheme) (syntax : SyntaxRegex) (ls : list str)
  : option (list (list Span)) :=
  match ls with
  | [] => Some []
  | l :: ls' =>
      match colour_line th syntax l, colour_lines th syntax ls' with
      | Some a, Some b => Some (a :: b)
      | _, _ => None
      end
  end.

(** [colour_text]: one styled [Line] per line of [text.lines()]. *)
Definition colour_text (text : str) (th : Theme.ColourTheme) (syntax : SyntaxRegex)
  : option (list (list Span)) :=
  colour_lines th syntax (Buffer.lines text).

End Render.

(* ================================================================== *)
(** * Proofs *)

Module TokenizerFacts.
Import Tokenizer.

Lemma find_non_ws_lt s n : find_non_ws s = Some n -> n < length s.
Proof.
  revert n; induction s as [|c t IH]; intros n H; simpl in H; [discriminate|].
  destruct (is_whitespace c).
  - destruct (find_non_ws t) as [m|] eqn:E; simpl in H; [|discriminate].
    inversion H; subst. specialize (IH m eq_refl). simpl; lia.
  - inversion H; subst; simpl; lia.
Qed.

Lemma try_rules_some rl c t tok rest :
  try_rules rl (c :: t) = Some (tok, rest) ->
  fst tok ++ rest = c :: t /\ fst tok <> [] /\ length rest <= length t.
Proof.
  induction rl as [|[re kind] rl IH]; simpl; [discriminate|].
  destruct (re_find re (c :: t)) as [[[|b] e]|]; auto.
  destruct (Nat.eqb_spec e 0) as [->|He]; intros H; inversion H; subst; clear H.
  - simpl. repeat split; [discriminate|lia].
  - destruct e as [|e]; [lia|]. simpl.
    rewrite firstn_skipn. rewrite length_skipn.
    repeat split; [discriminate|lia].
Qed.

Lemma try_rules_first rl input :
  try_rules rl input =
  match first_match_rule rl input with
  | Some (kind, e) =>
      if e =? 0 then Some ((firstn 1 input, Unknown), skipn 1 input)
      else Some ((firstn e input, kind), skipn e input)
  | None => None
  end.
Proof.
  induction rl as [|[re kind] rl IH]; simpl; [reflexivity|].
  destruct (re_find re input) as [[[|b] e]|]; auto.
Qed.

(** Every iteration of the loop consumes input, and the tokens it emits
    are non-empty and spell that input. *)
Lemma parse_loop_total rs :
  forall f s, length s <= f ->
  exists toks, parse_loop rs f s = Some toks /\ tokens_text toks = s
    /\ Forall (fun tk => fst tk <> []) toks.
Proof.
  induction f as [|f IH]; intros s Hs.
  - destruct s; [|simpl in Hs; lia]. exists []; repeat constructor.
  - destruct s as [|c t]; [exists []; repeat constructor|]. simpl in Hs.
    cbn [parse_loop].
    destruct (find_non_ws (c :: t)) as [n|] eqn:Ews.
    + apply find_non_ws_lt in Ews. simpl in Ews.
      destruct (Nat.ltb_spec 0 n) as [Hn|Hn].
      * destruct (IH (skipn n (c :: t))) as (toks & E & Ht & Hne).
        { rewrite length_skipn. simpl length. lia. }
        rewrite E. eexists; split; [reflexivity|]. split.
        -- unfold tokens_text in *. simpl. rewrite Ht. apply firstn_skipn.
        -- constructor; auto. destruct n; [lia|]. simpl. discriminate.
      * destruct (try_rules (rules rs) (c :: t)) as [[tok rest]|] eqn:Er.
        -- apply try_rules_some in Er as (Ecat & Hne1 & Hlen).
           destruct (IH rest) as (toks & E & Ht & Hne); [lia|].
           rewrite E. eexists; split; [reflexivity|]. split.
           ++ unfold tokens_text in *. simpl. rewrite Ht. exact Ecat.
           ++ constructor; auto.
        -- destruct (IH t) as (toks & E & Ht & Hne); [lia|].
           simpl. rewrite E. eexists; split; [reflexivity|]. split.
           ++ unfold tokens_text in *. simpl. rewrite Ht. reflexivity.
           ++ constructor; auto. simpl. discriminate.
    + exists [(c :: t, Whitespace)]. repeat split.
      * unfold tokens_text. simpl. rewrite app_nil_r; reflexivity.
      * constructor; auto. simpl. discriminate.
Qed.

Lemma parse_loop_fuel rs :
  forall f f' s, length s <= f -> length s <= f' -> parse_loop rs f s = parse_loop rs f' s.
Proof.
  induction f as [|f IH]; intros f' s Hf Hf'.
  - destruct s; [|simpl in Hf; lia]. destruct f'; reflexivity.
  - destruct s as [|c t]; [destruct f'; reflexivity|].
    destruct f' as [|f']; [simpl in Hf'; lia|]. simpl in Hf, Hf'.
    cbn [parse_loop].
    destruct (find_non_ws (c :: t)) as [n|] eqn:Ews; [|reflexivity].
    apply find_non_ws_lt in Ews. simpl in Ews.
    destruct (Nat.ltb_spec 0 n) as [Hn|Hn].
    + rewrite (IH f'); [reflexivity| |]; rewrite length_skipn; simpl length; lia.
    + destruct (try_rules (rules rs) (c :: t)) as [[tok rest]|] eqn:Er.
      * apply try_rules_some in Er as (_ & _ & Hlen).
        rewrite (IH f'); [reflexivity|lia|lia].
      * simpl. rewrite (IH f'); [reflexivity|lia|lia].
Qed.

Lemma parse_loop_parse rs f s : length s <= f -> parse_loop rs f s = parse rs s.
Proof. intros H. unfold parse. apply parse_loop_fuel; lia. Qed.

End TokenizerFacts.

Module TokenizerClaims.
Import Tokenizer TokenizerFacts.

(** C1: [SyntaxRegex::parse] is total and lossless.  For every rule set
    and every line [L] it returns a token list; concatenating the token
    texts in order gives back [L], and every token is non-empty, so the
    tokens are consecutive non-empty slices that cover each character of
    [L] exactly once. *)
Theorem parse_lossless (rs : SyntaxRegex) (L : str) :
  exists toks, parse rs L = Some toks /\ tokens_text toks = L
    /\ Forall (fun tk => fst tk <> []) toks.
Proof. apply parse_loop_total. lia. Qed.

Lemma first_match_rule_skip re k rl s :
  starts_at0 re s = false -> first_match_rule ((re, k) :: rl) s = first_match_rule rl s.
Proof.
  unfold starts_at0. simpl. destruct (re_find re s) as [[[|b] e]|]; auto. discriminate.
Qed.

Lemma parse_step_rules rs c t :
  is_whitespace c = false ->
  parse rs (c :: t) =
  match first_match_rule (rules rs) (c :: t) with
  | Some (kind, e) =>
      if e =? 0 then option_map (cons ([c], Unknown)) (parse rs t)
      else option_map (cons (firstn e (c :: t), kind)) (parse rs (skipn e (c :: t)))
  | None => option_map (cons ([c], Unknown)) (parse rs t)
  end.
Proof.
  intros Hc. unfold parse at 1. simpl length. cbn [parse_loop find_non_ws].
  rewrite Hc. cbv iota beta. change (0 <? 0) with false. cbv iota beta.
  rewrite try_rules_first.
  destruct (first_match_rule (rules rs) (c :: t)) as [[kind e]|].
  - destruct (Nat.eqb_spec e 0) as [->|He].
    + simpl. rewrite parse_loop_parse; auto.
    + destruct e as [|e]; [lia|].
      rewrite parse_loop_parse; [reflexivity|]. simpl. rewrite length_skipn. lia.
  - simpl. rewrite parse_loop_parse; auto.
Qed.

Lemma parse_step_ws rs s n :
  find_non_ws s = Some n -> 0 < n ->
  parse rs s = option_map (cons (firstn n s, Whitespace)) (parse rs (skipn n s)).
Proof.
  intros H Hn. pose proof (find_non_ws_lt _ _ H) as Hlt.
  destruct s as [|c t]; [simpl in Hlt; lia|].
  unfold parse at 1. simpl length. cbn [parse_loop]. rewrite H.
  destruct (Nat.ltb_spec 0 n) as [_|]; [|lia].
  rewrite parse_loop_parse; [reflexivity|]. rewrite length_skipn. simpl length. lia.
Qed.

(** C2 as stated fails: a rule whose winning match is empty does not
    have its (empty) span emitted with its kind.  With identifier =
    [[A-Za-z_]*] and delimiters = [\(], the identifier rule is the first
    to match ["("] at offset 0, with an empty span, and [parse] emits
    ["("] as [Unknown]; the delimiter rule is never tried. *)
Lemma parse_empty_match_counterexample :
  ~ (forall rs input, find_non_ws input = Some 0 ->
     forall kind e, first_match_rule (rules rs) input = Some (kind, e) ->
     exists rest, parse rs input = Some ((firstn e input, kind) :: rest)).
Proof.
  intros H.
  destruct (H empty_ident_rules (of_ascii "(") eq_refl Identifier 0 eq_refl) as [rest Hr].
  vm_compute in Hr. discriminate.
Qed.

(** C2 (amended).  After the whitespace step, the first rule in the order
    comment, literal, keyword, function, type, identifier, extra,
    delimiter whose match starts at offset 0 decides the next token: a
    non-empty match is emitted whole with that rule's kind, an empty one
    emits the next character as [Unknown]; with no such rule the next
    character is [Unknown].  In the spec's example (keyword = [fn|let],
    identifier = [[A-Za-z_]+], and comment, literal, function and type
    rules without a match at offset 0 on the slices ["fn foo"] and
    ["foo"]), ["fn foo"] is tokenised as fn/Keyword, space/Whitespace,
    foo/Identifier. *)
Theorem parse_rule_priority :
  (forall rs c t, is_whitespace c = false ->
   parse rs (c :: t) =
   match first_match_rule (rules rs) (c :: t) with
   | Some (kind, e) =>
       if e =? 0 then option_map (cons ([c], Unknown)) (parse rs t)
       else option_map (cons (firstn e (c :: t), kind)) (parse rs (skipn e (c :: t)))
   | None => option_map (cons ([c], Unknown)) (parse rs t)
   end) /\
  (forall comment_ literal_ function_ types_ extra_ delimiters_,
   starts_at0 comment_ (of_ascii "fn foo") = false ->
   starts_at0 literal_ (of_ascii "fn foo") = false ->
   starts_at0 comment_ (of_ascii "foo") = false ->
   starts_at0 literal_ (of_ascii "foo") = false ->
   starts_at0 function_ (of_ascii "foo") = false ->
   starts_at0 types_ (of_ascii "foo") = false ->
   parse (example_rules comment_ literal_ function_ types_ extra_ delimiters_)
     (of_ascii "fn foo") =
   Some [(of_ascii "fn", Keyword); (of_ascii " ", Whitespace);
         (of_ascii "foo", Identifier)]).
Proof.
  split; [exact parse_step_rules|].
  intros cm lt fn ty ex dl H1 H2 H3 H4 H5 H6.
  set (rs := example_rules cm lt fn ty ex dl).
  replace (parse rs (of_ascii "fn foo")) with (parse rs (102%Z :: of_ascii "n foo")) by reflexivity.
  rewrite (parse_step_rules rs 102 (of_ascii "n foo")) by reflexivity.
  change (102%Z :: of_ascii "n foo") with (of_ascii "fn foo").
  unfold rules. rewrite !first_match_rule_skip by assumption.
  replace (first_match_rule _ (of_ascii "fn foo")) with (Some (Keyword, 2))
    by reflexivity.
  change (parse rs (skipn 2 (of_ascii "fn foo"))) with (parse rs (of_ascii " foo")).
  replace (parse rs (of_ascii " foo"))
    with (option_map (cons (of_ascii " ", Whitespace)) (parse rs (of_ascii "foo")))
    by (symmetry; apply (parse_step_ws rs (of_ascii " foo") 1); [reflexivity|lia]).
  replace (parse rs (of_ascii "foo")) with (parse rs (102%Z :: of_ascii "oo")) by reflexivity.
  rewrite (parse_step_rules rs 102 (of_ascii "oo")) by reflexivity.
  change (102%Z :: of_ascii "oo") with (of_ascii "foo").
  unfold rules. rewrite !first_match_rule_skip by (assumption || reflexivity).
  reflexivity.
Qed.

Lemma parse_rule_priority_witness :
  is_whitespace 102 = false /\
  parse (example_rules no_rule no_rule no_rule no_rule no_rule no_rule)
    (of_ascii "fn foo") =
  Some [(of_ascii "fn", Keyword); (of_ascii " ", Whitespace);
        (of_ascii "foo", Identifier)].
Proof.
  split; [reflexivity|].
  apply (proj2 parse_rule_priority); vm_compute; reflexivity.
Defined.

End TokenizerClaims.

Module BufferClaims.
Import Buffer.

(** C3 (code_bug): inserting and then deleting at the same position does
    not always restore the text.  On ["ab"] at line 1, column 0 (where the
    cursor lands after moving right past the end of the last line), the
    offset is 3, past the end, and [insert_char] panics; on the CRLF text
    ["a\r\nb"] at line 1, column 0, the offset counts one byte for the
    two-byte line ending, ['x'] is inserted before the ["\n"] and the
    deletion then removes the ['b']. *)
Theorem insert_remove_not_inverse :
  insert_char (of_ascii "ab") {| x := 0; y := 1 |} 120 = None /\
  insert_char [97; 13; 10; 98]%Z {| x := 0; y := 1 |} 120 = Some [97; 13; 120; 10; 98]%Z /\
  remove_char [97; 13; 120; 10; 98]%Z {| x := 0; y := 1 |} = Some [97; 13; 120; 10]%Z.
Proof. repeat split; vm_compute; reflexivity. Qed.

(** C4 (code_bug): on the CRLF text ["a\r\n" followed by U+00E9], position (line 1,
    column 1) maps to byte offset 4, inside the two-byte U+00E9 and below
    the length 5, so [remove_char] calls [String::remove] off a character
    boundary and panics. *)
Theorem remove_char_crlf_panics :
  get_byte_offset [97; 13; 10; 233]%Z {| x := 1; y := 1 |} = 4 /\
  byte_len [97; 13; 10; 233]%Z = 5 /\
  remove_char [97; 13; 10; 233]%Z {| x := 1; y := 1 |} = None.
Proof. repeat split; vm_compute; reflexivity. Qed.

(** C10: on an empty buffer, [remove_char] at any position leaves the
    buffer empty and does not panic: the offset is 0, the length is 0, and
    [String::pop] on an empty string does nothing. *)
Theorem remove_char_empty (pos : Position) : remove_char [] pos = Some [].
Proof. reflexivity. Qed.

End BufferClaims.

Module CursorClaims.
Import Buffer Editor.

Lemma clamp_column_cursor e :
  x (cursor (clamp_column e)) = Nat.min (x (cursor e)) (u16 (length (line_at_cursor e)))
  /\ y (cursor (clamp_column e)) = y (cursor e)
  /\ file_text (clamp_column e) = file_text e.
Proof.
  unfold clamp_column. destruct (Nat.ltb_spec (u16 (length (line_at_cursor e))) (x (cursor e))).
  - simpl. repeat split. lia.
  - repeat split. lia.
Qed.

Lemma line_at_cursor_clamp e : line_at_cursor (clamp_column e) = line_at_cursor e.
Proof.
  unfold line_at_cursor. destruct (clamp_column_cursor e) as (_ & Hy & Ht).
  rewrite Hy, Ht. reflexivity.
Qed.

(** The editor of the C6 counterexample: 65536 empty lines, cursor on
    row 65535. *)
Definition tall_editor : Editor :=
  mk_editor (repeat 10%Z 65536) {| x := 0; y := 65535 |} Normal [].

(** C6 as stated fails: with 65536 lines the cursor row 65535 is below
    [lineCount() + 1], yet moving down does not give row 65536, which a
    [u16] cannot hold; the increment wraps to row 0. *)
Lemma move_down_u16_counterexample :
  ~ (forall e, y (cursor e) < length (lines (file_text e)) + 1 ->
     y (cursor (move_cursor e Down)) = y (cursor e) + 1).
Proof.
  intros H.
  assert (Hlt : y (cursor tall_editor) < length (lines (file_text tall_editor)) + 1).
  { apply Nat.ltb_lt. vm_compute. reflexivity. }
  specialize (H tall_editor Hlt).
  assert (Hf : Nat.eqb (y (cursor (move_cursor tall_editor Down)))
                       (y (cursor tall_editor) + 1) = false)
    by (vm_compute; reflexivity).
  rewrite H, Nat.eqb_refl in Hf. discriminate.
Qed.

(** C6 (amended): moving up from line 0 and moving down from a row at or
    beyond [lineCount() + 1] leave the editor unchanged; moving down from
    a row below [lineCount() + 1] sets the row to [(y + 1) mod 2^16], an
    increment whenever [y < 65535]. *)
Theorem move_cursor_vertical_bounds (e : Editor) :
  (y (cursor e) = 0 -> move_cursor e Up = e) /\
  (length (lines (file_text e)) + 1 <= y (cursor e) -> move_cursor e Down = e) /\
  (y (cursor e) < length (lines (file_text e)) + 1 ->
   y (cursor (move_cursor e Down)) = u16 (y (cursor e) + 1)) /\
  (y (cursor e) < length (lines (file_text e)) + 1 -> y (cursor e) < 65535 ->
   y (cursor (move_cursor e Down)) = y (cursor e) + 1).
Proof.
  assert (Hdown : y (cursor e) < length (lines (file_text e)) + 1 ->
                  y (cursor (move_cursor e Down)) = u16 (y (cursor e) + 1)).
  { intros H. simpl. unfold cursor_at_end_of_file.
    destruct (Nat.leb_spec (length (lines (file_text e)) + 1) (y (cursor e))); [lia|].
    destruct (clamp_column_cursor
      (set_cursor e {| x := x (cursor e); y := u16 (y (cursor e) + 1) |})) as (_ & -> & _).
    reflexivity. }
  repeat split.
  - intros H. simpl. unfold cursor_at_start_of_file. rewrite H. reflexivity.
  - intros H. simpl. unfold cursor_at_end_of_file.
    destruct (Nat.leb_spec (length (lines (file_text e)) + 1) (y (cursor e))); [reflexivity|lia].
  - exact Hdown.
  - intros H1 H2. rewrite (Hdown H1). unfold u16. apply Nat.mod_small.
    assert (E : 65536 = S 65535) by (apply Nat.eqb_eq; vm_compute; reflexivity).
    rewrite E. lia.
Qed.

Lemma move_cursor_vertical_bounds_witness :
  y (cursor tall_editor) < length (lines (file_text tall_editor)) + 1 /\
  y (cursor (move_cursor tall_editor Down)) = u16 (y (cursor tall_editor) + 1).
Proof.
  assert (H : y (cursor tall_editor) < length (lines (file_text tall_editor)) + 1).
  { apply Nat.ltb_lt. vm_compute. reflexivity. }
  split; [exact H|].
  exact (proj1 (proj2 (proj2 (move_cursor_vertical_bounds tall_editor))) H).
Defined.

End CursorClaims.

Module MotionClaims.
Import Buffer Editor CursorClaims.

(** C7 as stated fails: a blocked vertical move does not clamp.  With
    the text ["ab"] and the cursor at column 5 of line 0, moving up is a
    no-op and leaves column 5, not [min 5 2]. *)
Lemma vertical_clamp_counterexample :
  ~ (forall e d, (d = Up \/ d = Down) ->
     x (cursor (move_cursor e d)) =
     Nat.min (x (cursor e)) (length (line_at_cursor (move_cursor e d)))).
Proof.
  intros H.
  specialize (H (mk_editor (of_ascii "ab") {| x := 5; y := 0 |} Normal []) Up
                (or_introl eq_refl)).
  vm_compute in H. discriminate.
Qed.

(** C7 (amended): a vertical move that is carried out (up from a row
    [y > 0], down from a row [y < lineCount() + 1]) onto a line of fewer
    than 65536 characters leaves [cursor.x = min(previousX, length(newLine))],
    where [newLine] is the line under the new row; a blocked move (up on
    row 0, down at or past [lineCount() + 1]) leaves the cursor as it was. *)
Theorem move_cursor_column_clamp (e : Editor) :
  (0 < y (cursor e) ->
   length (line_at_cursor (move_cursor e Up)) < 65536 ->
   x (cursor (move_cursor e Up)) =
   Nat.min (x (cursor e)) (length (line_at_cursor (move_cursor e Up)))) /\
  (y (cursor e) < length (lines (file_text e)) + 1 ->
   length (line_at_cursor (move_cursor e Down)) < 65536 ->
   x (cursor (move_cursor e Down)) =
   Nat.min (x (cursor e)) (length (line_at_cursor (move_cursor e Down)))) /\
  (y (cursor e) = 0 -> cursor (move_cursor e Up) = cursor e) /\
  (length (lines (file_text e)) + 1 <= y (cursor e) -> cursor (move_cursor e Down) = cursor e).
Proof.
  repeat split.
  - intros H Hl.
    assert (Hold : x (cursor (move_cursor e Up)) =
                   Nat.min (x (cursor e)) (u16 (length (line_at_cursor (move_cursor e Up))))).
    { simpl. unfold cursor_at_start_of_file.
      destruct (Nat.eqb_spec (y (cursor e)) 0); [lia|].
      rewrite line_at_cursor_clamp.
      match goal with |- context [clamp_column ?E] => exact (proj1 (clamp_column_cursor E)) end. }
    unfold u16 in Hold. rewrite Nat.mod_small in Hold by exact Hl. exact Hold.
  - intros H Hl.
    assert (Hold : x (cursor (move_cursor e Down)) =
                   Nat.min (x (cursor e)) (u16 (length (line_at_cursor (move_cursor e Down))))).
    { simpl. unfold cursor_at_end_of_file.
      destruct (Nat.leb_spec (length (lines (file_text e)) + 1) (y (cursor e))); [lia|].
      rewrite line_at_cursor_clamp.
      match goal with |- context [clamp_column ?E] => exact (proj1 (clamp_column_cursor E)) end. }
    unfold u16 in Hold. rewrite Nat.mod_small in Hold by exact Hl. exact Hold.
  - intros H. rewrite (proj1 (move_cursor_vertical_bounds e) H). reflexivity.
  - intros H. rewrite (proj1 (proj2 (move_cursor_vertical_bounds e)) H). reflexivity.
Qed.

Lemma move_cursor_column_clamp_witness :
  let e := mk_editor (of_ascii "abc
de") {| x := 3; y := 0 |} Normal [] in
  y (cursor e) < length (lines (file_text e)) + 1 /\
  length (line_at_cursor (move_cursor e Down)) < 65536 /\
  x (cursor (move_cursor e Down)) =
  Nat.min (x (cursor e)) (length (line_at_cursor (move_cursor e Down))).
Proof.
  intros e.
  assert (H : y (cursor e) < length (lines (file_text e)) + 1) by (vm_compute; lia).
  assert (Hl : length (line_at_cursor (move_cursor e Down)) < 65536)
    by (apply Nat.ltb_lt; vm_compute; reflexivity).
  split; [exact H|]. split; [exact Hl|].
  exact (proj1 (proj2 (move_cursor_column_clamp e)) H Hl).
Defined.

(** C5 as stated fails: the search is not anchored at the cursor.  On
    the line ["\tab"] with the default word pattern (a tab is a control
    character, in none of the pattern's classes) there is no match at the
    cursor's column 0, yet ['e'] moves the cursor to column 3, the end of
    the first match ["ab"]. *)
Lemma move_to_end_unanchored_counterexample :
  ~ (forall e pat,
     x (cursor (move_to_end_of_pat e pat)) =
     match re_find pat (skipn (x (cursor e)) (line_at_cursor e)) with
     | Some (0, mat_end) => x (cursor e) + mat_end
     | _ => x (cursor e)
     end).
Proof.
  intros H.
  specialize (H (mk_editor (9%Z :: of_ascii "ab") {| x := 0; y := 0 |} Normal [])
                (word_pattern ascii_gc)).
  vm_compute in H. discriminate.
Qed.

(** C5 (amended): [move_to_end_of_pat] takes the current line from the
    cursor's character column, finds the leftmost match of the pattern
    anywhere in that slice, and advances the column (mod 2^16) by the
    number of characters from the cursor to the end of that match; with
    no match it is a no-op; the row and the text never change.  On the
    line ["ab cd"] with the default word pattern, from column 0 the cursor
    moves to column 2. *)
Theorem move_to_end_of_pat_spec :
  (forall e pat,
   x (cursor (move_to_end_of_pat e pat)) =
   match re_find pat (skipn (x (cursor e)) (line_at_cursor e)) with
   | Some (mat_start, mat_end) => u16 (x (cursor e) + u16 mat_end)
   | None => x (cursor e)
   end /\
   y (cursor (move_to_end_of_pat e pat)) = y (cursor e) /\
   file_text (move_to_end_of_pat e pat) = file_text e) /\
  (forall gc e,
   gc (chr "a") = Letter -> gc (chr "b") = Letter -> gc (chr " ") = Separator ->
   line_at_cursor e = of_ascii "ab cd" -> x (cursor e) = 0 ->
   x (cursor (move_to_end_of_pat e (word_pattern gc))) = 2).
Proof.
  split.
  - intros e pat. unfold move_to_end_of_pat.
    destruct (re_find pat (skipn (x (cursor e)) (line_at_cursor e))) as [[i j]|];
      repeat split.
  - intros gc e Ha Hb Hsp Hline Hx. unfold move_to_end_of_pat.
    rewrite Hline, Hx. change (chr "a") with 97%Z in Ha. change (chr "b") with 98%Z in Hb.
    change (chr " ") with 32%Z in Hsp. simpl. rewrite Ha. simpl. rewrite Hb, Hsp. simpl.
    reflexivity.
Qed.

Lemma move_to_end_of_pat_spec_witness :
  x (cursor (move_to_end_of_pat
               (mk_editor (of_ascii "ab cd") {| x := 0; y := 0 |} Normal [])
               (word_pattern ascii_gc))) = 2.
Proof.
  apply (proj2 move_to_end_of_pat_spec); reflexivity.
Defined.

End MotionClaims.

Module EditorClaims.
Import Buffer Editor.

(** A file that reads as ["ab"], no trailing newline. *)
Definition read_ab (path : str) : option str := Some (of_ascii "ab").

(** C8 (code_bug): the out-of-range position built by ['O'] on line 0
    is not clamped.  Right after opening a file holding ["ab"] (cursor at
    line 0, column 0, Normal mode), ['O'] computes row [0 - 1], which
    wraps to 65535, so the offset is 3, past the end of the buffer, and
    [insert_char] panics. *)
Theorem insert_line_above_first_line_panics
  (file_create : str -> bool) (write_all : str -> str -> bool)
  (gc : Z -> GeneralCategory) :
  handle_key_event file_create write_all gc
    (new_editor read_ab (Some (of_ascii "main.rs"))) (Char (chr "O")) = None.
Proof. reflexivity. Qed.

(** C9 as stated fails: a failed save is not reported; the key handler
    panics.  With [File::create] failing, [:w] followed by Enter does not
    return an editor state. *)
Lemma save_failure_counterexample :
  ~ (forall file_create write_all gc e,
     mode e = Command -> command e = of_ascii "w" ->
     exists e', handle_key_event file_create write_all gc e Enter = Some e').
Proof.
  intros H.
  destruct (H (fun _ => false) (fun _ _ => true) ascii_gc
              (mk_editor [] {| x := 0; y := 0 |} Command (of_ascii "w"))
              eq_refl eq_refl) as [e' He].
  discriminate He.
Qed.

(** C9 (amended): executing the save command [w] panics (through
    [.expect]) when the file cannot be created or written, so the process
    aborts; when both steps succeed the session continues in Normal mode
    with an empty command line. *)
Theorem save_command_outcome
  (file_create : str -> bool) (write_all : str -> str -> bool)
  (gc : Z -> GeneralCategory) (e : Editor) :
  mode e = Command -> trim (command e) = of_ascii "w" ->
  handle_key_event file_create write_all gc e Enter =
  if file_create (file_path e) && write_all (file_path e) (file_text e)
  then Some (push_key (end_command e) Enter)
  else None.
Proof.
  intros Hm Hc. unfold handle_key_event. rewrite Hm.
  unfold execute_command. rewrite Hc. simpl. unfold save_file.
  destruct (file_create (file_path e)), (write_all (file_path e) (file_text e));
    reflexivity.
Qed.

Lemma save_command_outcome_witness :
  handle_key_event (fun _ => false) (fun _ _ => true) ascii_gc
    (mk_editor [] {| x := 0; y := 0 |} Command (of_ascii "w")) Enter = None.
Proof.
  apply (save_command_outcome (fun _ => false) (fun _ _ => true) ascii_gc
           (mk_editor [] {| x := 0; y := 0 |} Command (of_ascii "w")));
    reflexivity.
Defined.

End EditorClaims.

Module BufferFacts.
Import Buffer BufferLines.

Lemma utf8_len_pos c : 1 <= utf8_len c.
Proof. unfold utf8_len. repeat destruct (_ <? _)%Z; lia. Qed.

Lemma byte_len_app a b : byte_len (a ++ b) = byte_len a + byte_len b.
Proof. induction a as [|c a IH]; simpl; lia. Qed.

Lemma split_at_byte_app a b : split_at_byte (a ++ b) (byte_len a) = Some (a, b).
Proof.
  induction a as [|c a IH]; [destruct b; reflexivity|].
  simpl byte_len. simpl app.
  destruct (utf8_len c) as [|u] eqn:E; [pose proof (utf8_len_pos c); lia|].
  cbn [split_at_byte Nat.add]. rewrite E.
  replace (S (u + byte_len a) <? S u) with false by (symmetry; apply Nat.ltb_ge; lia).
  replace (S (u + byte_len a) - S u) with (byte_len a) by lia.
  rewrite IH. reflexivity.
Qed.


Lemma no_cr_In s : no_cr s = true <-> ~ In 13%Z s.
Proof.
  unfold no_cr. rewrite forallb_forall. split.
  - intros H Hin. specialize (H _ Hin). simpl in H. discriminate.
  - intros H c Hc. destruct (Z.eqb_spec c 13); [subst; contradiction|reflexivity].
Qed.

Lemma split_incl_no_nl l : l <> [] -> ~ In 10%Z l -> split_inclusive_nl l = [l].
Proof.
  induction l as [|c l IH]; [congruence|]. intros _ H.
  assert (Hc : c <> 10%Z) by (intros ->; apply H; left; reflexivity).
  simpl. rewrite (proj2 (Z.eqb_neq _ _) Hc).
  destruct l as [|d l]; [reflexivity|].
  rewrite IH; [reflexivity|discriminate|intros Hin; apply H; right; exact Hin].
Qed.

Lemma split_incl_nl l t :
  ~ In 10%Z l -> split_inclusive_nl (l ++ 10%Z :: t) = (l ++ [10%Z]) :: split_inclusive_nl t.
Proof.
  induction l as [|c l IH]; intros H; [reflexivity|].
  assert (Hc : c <> 10%Z) by (intros ->; apply H; left; reflexivity).
  simpl. rewrite (proj2 (Z.eqb_neq _ _) Hc).
  rewrite IH; [reflexivity|intros Hin; apply H; right; exact Hin].
Qed.

Lemma ends_with_not c l : ~ In c l -> ends_with c l = false.
Proof.
  unfold ends_with. intros H. destruct (rev l) as [|d r] eqn:E; [reflexivity|].
  apply Z.eqb_neq. intros ->. apply H. apply in_rev. rewrite E. left. reflexivity.
Qed.

Lemma strip_nl l : ~ In 13%Z l -> strip_line_ending (l ++ [10%Z]) = l.
Proof.
  intros H. unfold strip_line_ending, ends_with at 1.
  rewrite rev_app_distr. simpl. rewrite removelast_last.
  rewrite ends_with_not by exact H. reflexivity.
Qed.

Lemma lines_nl l t : plain_line l -> lines (l ++ 10%Z :: t) = l :: lines t.
Proof.
  intros [H10 H13]. unfold lines. rewrite split_incl_nl by exact H10.
  simpl. rewrite strip_nl by exact H13. reflexivity.
Qed.

Lemma lines_last l : l <> [] -> ~ In 10%Z l -> lines l = [l].
Proof.
  intros Hne H. unfold lines. rewrite split_incl_no_nl by assumption.
  simpl. unfold strip_line_ending. rewrite ends_with_not by exact H. reflexivity.
Qed.

Lemma nl_decomp s : ~ In 10%Z s \/ exists l t, s = l ++ 10%Z :: t /\ ~ In 10%Z l.
Proof.
  induction s as [|c s IH]; [left; auto|].
  destruct (Z.eq_dec c 10) as [->|Hc].
  - right. exists [], s. split; [reflexivity|auto].
  - destruct IH as [H|(l & t & -> & H)].
    + left. intros [E|E]; [congruence|contradiction].
    + right. exists (c :: l), t. split; [reflexivity|].
      intros [E|E]; [congruence|contradiction].
Qed.

Lemma pre_text_cons l ls : pre_text (l :: ls) = l ++ 10%Z :: pre_text ls.
Proof. unfold pre_text. simpl. rewrite <- app_assoc. reflexivity. Qed.

Lemma byte_len_pre_text_cons l ls :
  byte_len (pre_text (l :: ls)) = byte_len l + 1 + byte_len (pre_text ls).
Proof. rewrite pre_text_cons, byte_len_app. simpl. lia. Qed.

Lemma lines_pre_text ls rest :
  Forall plain_line ls -> lines (pre_text ls ++ rest) = ls ++ lines rest.
Proof.
  induction ls as [|l ls IH]; intros H; [reflexivity|]. inversion H; subst.
  rewrite pre_text_cons. simpl. rewrite <- app_assoc. simpl.
  rewrite lines_nl by assumption. rewrite IH by assumption. reflexivity.
Qed.

Lemma byte_offset_from_app ls R : forall i pos,
  i + length ls <= y pos ->
  byte_offset_from (ls ++ R) i pos =
  byte_len (pre_text ls) + byte_offset_from R (i + length ls) pos.
Proof.
  induction ls as [|l ls IH]; intros i pos H.
  - simpl. rewrite Nat.add_0_r. reflexivity.
  - cbn [length app byte_offset_from] in *.
    destruct (Nat.eqb_spec i (y pos)) as [E|E]; [lia|].
    rewrite IH by lia. rewrite byte_len_pre_text_cons.
    replace (S i + length ls) with (i + S (length ls)) by lia. lia.
Qed.

Lemma char_byte_index_firstn line n : char_byte_index line n = byte_len (firstn n line).
Proof.
  unfold char_byte_index. destruct (Nat.ltb_spec n (length line)); [reflexivity|].
  rewrite firstn_all2 by lia. reflexivity.
Qed.

(** The offset of a position, read off a split of the text into the
    lines above it, its own line and the rest. *)
Lemma offset_decomp ls line post pos :
  Forall plain_line ls -> plain_line line ->
  (post = [] \/ exists t, post = 10%Z :: t) -> y pos = length ls ->
  get_byte_offset (pre_text ls ++ line ++ post) pos =
  byte_len (pre_text ls ++ firstn (x pos) line).
Proof.
  intros Hls Hl Hpost Hy. unfold get_byte_offset.
  rewrite lines_pre_text by exact Hls.
  rewrite byte_offset_from_app by lia. rewrite byte_len_app. f_equal.
  simpl. rewrite <- char_byte_index_firstn.
  destruct Hpost as [->|(t & ->)].
  - rewrite app_nil_r. destruct line as [|c l].
    + reflexivity.
    + rewrite lines_last by (discriminate || apply Hl). simpl.
      rewrite <- Hy, Nat.eqb_refl. reflexivity.
  - rewrite lines_nl by exact Hl. simpl. rewrite <- Hy, Nat.eqb_refl. reflexivity.
Qed.

Lemma not_In_app {A} (a : A) l1 l2 : ~ In a (l1 ++ l2) -> ~ In a l1 /\ ~ In a l2.
Proof. intros H. split; intros Hin; apply H; apply in_app_iff; auto. Qed.

(** Every line of text without ["\r"] splits it this way. *)
Lemma line_decomp y0 : forall s,
  ~ In 13%Z s -> y0 < length (lines s) ->
  exists ls line post,
    s = pre_text ls ++ line ++ post /\ length ls = y0 /\ Forall plain_line ls /\
    plain_line line /\ (post = [] \/ exists t, post = 10%Z :: t) /\
    firstn y0 (lines s) = ls /\ nth y0 (lines s) [] = line.
Proof.
  induction y0 as [|y0 IH]; intros s Hcr Hy;
    destruct (nl_decomp s) as [Hn|(l & t & -> & Hl)].
  - destruct s as [|c s']; [simpl in Hy; lia|].
    rewrite lines_last in * by (discriminate || exact Hn).
    exists [], (c :: s'), []. simpl. rewrite app_nil_r.
    repeat split; auto.
  - apply not_In_app in Hcr as [Hl13 Ht13].
    assert (Hp : plain_line l) by (split; assumption).
    rewrite lines_nl in * by exact Hp.
    exists [], l, (10%Z :: t). repeat split; auto. right. eexists; reflexivity.
  - destruct s as [|c s']; [simpl in Hy; lia|].
    rewrite lines_last in Hy by (discriminate || exact Hn). simpl in Hy. lia.
  - apply not_In_app in Hcr as [Hl13 Ht13].
    assert (Hp : plain_line l) by (split; assumption).
    rewrite lines_nl in * by exact Hp. simpl in Hy.
    assert (Ht13' : ~ In 13%Z t) by (intros Hin; apply Ht13; right; exact Hin).
    destruct (IH t Ht13' ltac:(lia)) as (ls & line & post & Ht & Hlen & Hls & Hline & Hpost & Hf & Hn).
    exists (l :: ls), line, post.
    split; [rewrite pre_text_cons, Ht; simpl; rewrite <- app_assoc; reflexivity|].
    split; [simpl; congruence|]. split; [constructor; assumption|].
    split; [exact Hline|]. split; [exact Hpost|].
    split; cbn [firstn nth]; [rewrite Hf; reflexivity|exact Hn].
Qed.

Lemma trailing_newline_app a t : t <> [] -> trailing_newline (a ++ t) = trailing_newline t.
Proof.
  intros H. unfold trailing_newline. rewrite rev_app_distr.
  destruct (rev t) eqn:E; [|reflexivity].
  exfalso. apply H. rewrite <- (rev_involutive t), E. reflexivity.
Qed.

(** The offset past the last line: every line with one byte for its
    newline, which overshoots the text by one byte when its last line has
    no newline. *)
Lemma pre_text_lines_len n : forall s, length s <= n -> ~ In 13%Z s ->
  byte_len (pre_text (lines s)) = byte_len s + (if trailing_newline s then 0 else 1).
Proof.
  induction n as [|n IH]; intros s Hlen Hcr.
  - destruct s; [reflexivity|simpl in Hlen; lia].
  - destruct (nl_decomp s) as [Hn|(l & t & -> & Hl)].
    + destruct s as [|c s']; [reflexivity|].
      rewrite lines_last by (discriminate || exact Hn).
      unfold pre_text. simpl. rewrite app_nil_r, byte_len_app.
      unfold trailing_newline. destruct (rev (c :: s')) as [|d r] eqn:E.
      * exfalso. apply (f_equal (@length Z)) in E. rewrite length_rev in E. discriminate.
      * assert (Hd : d <> 10%Z).
        { intros ->. apply Hn. apply in_rev. rewrite E. left. reflexivity. }
        rewrite (proj2 (Z.eqb_neq _ _) Hd). simpl. lia.
    + apply not_In_app in Hcr as [Hl13 Ht13].
      assert (Hp : plain_line l) by (split; assumption).
      rewrite lines_nl by exact Hp. rewrite byte_len_pre_text_cons.
      assert (Ht13' : ~ In 13%Z t) by (intros Hin; apply Ht13; right; exact Hin).
      rewrite length_app in Hlen. simpl in Hlen.
      rewrite (IH t) by (lia || exact Ht13').
      rewrite byte_len_app. simpl byte_len.
      destruct t as [|d t'].
      * unfold trailing_newline. rewrite rev_app_distr. simpl. lia.
      * rewrite (trailing_newline_app l (10%Z :: d :: t')) by discriminate.
        change (trailing_newline (10%Z :: d :: t'))
          with (trailing_newline ([10%Z] ++ d :: t')).
        rewrite (trailing_newline_app [10%Z] (d :: t')) by discriminate.
        simpl. lia.
Qed.

Lemma firstn_plain l n : plain_line l -> plain_line (firstn n l).
Proof.
  intros [H1 H2]. rewrite <- (firstn_skipn n l) in H1, H2.
  apply not_In_app in H1 as [H1 _]. apply not_In_app in H2 as [H2 _]. split; assumption.
Qed.

Lemma skipn_plain l n : plain_line l -> plain_line (skipn n l).
Proof.
  intros [H1 H2]. rewrite <- (firstn_skipn n l) in H1, H2.
  apply not_In_app in H1 as [_ H1]. apply not_In_app in H2 as [_ H2]. split; assumption.
Qed.

Lemma firstn_app_exact {A} n (P R : list A) : length P = n -> firstn n (P ++ R) = P.
Proof.
  intros <-. induction P as [|a P IH]; [reflexivity|]. simpl. rewrite IH. reflexivity.
Qed.

Lemma skipn_app_exact {A} n (P R : list A) : length P = n -> skipn n (P ++ R) = R.
Proof. intros <-. induction P as [|a P IH]; [reflexivity|]. exact IH. Qed.

Lemma plain_app a b : plain_line a -> plain_line b -> plain_line (a ++ b).
Proof.
  intros [A1 A2] [B1 B2]. split; intros Hin; apply in_app_iff in Hin as [H|H]; auto.
Qed.

Lemma plain_cons c l : c <> 10%Z -> c <> 13%Z -> plain_line l -> plain_line (c :: l).
Proof. intros H1 H2 [L1 L2]. split; intros [E|E]; auto. Qed.

(** On a line that exists, the offset is the byte length of the text
    before the position, and that text is a prefix of the buffer. *)
Lemma line_prefix_split s pos :
  ~ In 13%Z s -> y pos < length (lines s) ->
  exists R, s = line_start_prefix s pos ++ R /\
            get_byte_offset s pos = byte_len (line_start_prefix s pos).
Proof.
  intros Hcr Hy.
  destruct (line_decomp (y pos) s Hcr Hy)
    as (ls & line & post & Hs & Hlen & Hls & Hline & Hpost & Hf & Hn).
  unfold line_start_prefix. rewrite Hf, Hn.
  exists (skipn (x pos) line ++ post). rewrite Hs at 1 2. split.
  - rewrite <- app_assoc, (app_assoc (firstn _ _)), firstn_skipn. reflexivity.
  - apply offset_decomp; auto.
Qed.

(** Past the last line the offset counts every line with its newline. *)
Lemma offset_past_lines s pos :
  length (lines s) <= y pos -> get_byte_offset s pos = byte_len (pre_text (lines s)).
Proof.
  intros H. unfold get_byte_offset.
  rewrite <- (app_nil_r (lines s)) at 1.
  rewrite byte_offset_from_app by (simpl; lia). simpl. lia.
Qed.

End BufferFacts.

Module BufferExtras.
Import Buffer BufferLines BufferFacts.

(** Extra: on text without ["\r"], [remove_char] never panics. On an
    existing line it deletes the character that follows the text before
    the position, or pops the last character when the position is at the
    end of the buffer; past the last line it pops the last character. *)
Theorem remove_char_no_cr s pos :
  no_cr s = true ->
  remove_char s pos =
  Some (if y pos <? length (lines s) then
          let k := length (line_start_prefix s pos) in
          if k <? length s then firstn k s ++ skipn (S k) s else removelast s
        else removelast s).
Proof.
  intros Hcr. apply no_cr_In in Hcr.
  destruct (Nat.ltb_spec (y pos) (length (lines s))) as [Hy|Hy].
  - destruct (line_prefix_split s pos Hcr Hy) as (R & Hs & Ho).
    unfold remove_char. rewrite Ho.
    set (P := line_start_prefix s pos) in *. clearbody P. subst s.
    destruct R as [|c R].
    + rewrite app_nil_r. rewrite Nat.leb_refl, Nat.ltb_irrefl. reflexivity.
    + rewrite byte_len_app. simpl byte_len. pose proof (utf8_len_pos c).
      replace (byte_len P + (utf8_len c + byte_len R) <=? byte_len P) with false
        by (symmetry; apply Nat.leb_gt; lia).
      replace (length P <? length (P ++ c :: R)) with true
        by (symmetry; apply Nat.ltb_lt; rewrite length_app; simpl; lia).
      unfold string_remove. rewrite split_at_byte_app.
      rewrite firstn_app_exact by reflexivity.
      replace (P ++ c :: R) with ((P ++ [c]) ++ R)
        by (rewrite <- app_assoc; reflexivity).
      rewrite (skipn_app_exact (S (length P)) (P ++ [c]) R)
        by (rewrite length_app; simpl; lia).
      reflexivity.
  - unfold remove_char. rewrite offset_past_lines by exact Hy.
    rewrite (pre_text_lines_len (length s) s) by (lia || exact Hcr).
    replace (byte_len s <=? _) with true by (symmetry; apply Nat.leb_le; lia).
    reflexivity.
Qed.

(** Extra: on text without ["\r"], [insert_char] on an existing line
    never panics: the text before the position is a prefix of the buffer,
    and the character goes right after it. *)
Theorem insert_char_no_cr_line s pos c :
  no_cr s = true -> y pos < length (lines s) ->
  let P := line_start_prefix s pos in
  firstn (length P) s = P /\ insert_char s pos c = Some (P ++ c :: skipn (length P) s).
Proof.
  intros Hcr Hy. apply no_cr_In in Hcr.
  destruct (line_prefix_split s pos Hcr Hy) as (R & Hs & Ho).
  intros P. unfold insert_char, string_insert. rewrite Ho. fold P in Hs |- *.
  clearbody P. subst s.
  rewrite firstn_app_exact, skipn_app_exact by reflexivity.
  rewrite split_at_byte_app. split; reflexivity.
Qed.


(** Extra: on text without ["\r"], inserting a character other than
    ["\r"] at a column within an existing line and then removing at the
    same position gives the text back. *)
Theorem insert_then_remove_no_cr s pos c :
  no_cr s = true -> c <> 13%Z -> y pos < length (lines s) ->
  x pos <= length (nth (y pos) (lines s) []) ->
  match insert_char s pos c with
  | Some s' => remove_char s' pos
  | None => None
  end = Some s.
Proof.
  intros Hcr Hc Hy Hx. apply no_cr_In in Hcr.
  destruct (line_decomp (y pos) s Hcr Hy)
    as (ls & line & post & Hs & Hlen & Hls & Hline & Hpost & Hf & Hn).
  rewrite Hn in Hx. clear Hf Hn Hy. subst s.
  unfold insert_char, string_insert. rewrite offset_decomp by auto.
  set (P := pre_text ls ++ firstn (x pos) line).
  set (R := skipn (x pos) line ++ post).
  assert (E : pre_text ls ++ line ++ post = P ++ R).
  { unfold P, R. rewrite <- app_assoc, (app_assoc (firstn _ _)), firstn_skipn.
    reflexivity. }
  rewrite E, split_at_byte_app. cbv beta iota.
  assert (Ho : get_byte_offset (P ++ c :: R) pos = byte_len P).
  { destruct (Z.eq_dec c 10) as [->|H10].
    - unfold P, R. rewrite <- app_assoc.
      rewrite offset_decomp; auto using firstn_plain.
      + rewrite firstn_firstn, Nat.min_id. reflexivity.
      + right. eexists. reflexivity.
    - replace (P ++ c :: R)
        with (pre_text ls ++ (firstn (x pos) line ++ c :: skipn (x pos) line) ++ post)
        by (unfold P, R; rewrite <- !app_assoc; reflexivity).
      rewrite offset_decomp; auto.
      + rewrite firstn_app_exact; [reflexivity|].
        rewrite length_firstn. lia.
      + apply plain_app; [apply firstn_plain; exact Hline|].
        apply plain_cons; auto. apply skipn_plain; exact Hline. }
  unfold remove_char. rewrite Ho.
  rewrite byte_len_app. simpl byte_len. pose proof (utf8_len_pos c).
  replace (byte_len P + (utf8_len c + byte_len R) <=? byte_len P) with false
    by (symmetry; apply Nat.leb_gt; lia).
  unfold string_remove. rewrite split_at_byte_app. reflexivity.
Qed.

Lemma remove_char_no_cr_witness :
  no_cr (of_ascii "ab
cd") = true /\
  remove_char (of_ascii "ab
cd") {| x := 1; y := 1 |} = Some (of_ascii "ab
c").
Proof.
  split; [reflexivity|].
  rewrite (remove_char_no_cr (of_ascii "ab
cd") {| x := 1; y := 1 |}) by reflexivity.
  vm_compute. reflexivity.
Defined.

Lemma insert_char_no_cr_line_witness :
  no_cr (of_ascii "ab
cd") = true /\ 1 < length (lines (of_ascii "ab
cd")) /\
  insert_char (of_ascii "ab
cd") {| x := 1; y := 1 |} 120%Z = Some (of_ascii "ab
cxd").
Proof.
  split; [reflexivity|]. split; [apply Nat.ltb_lt; vm_compute; reflexivity|].
  rewrite (proj2 (insert_char_no_cr_line (of_ascii "ab
cd") {| x := 1; y := 1 |} 120%Z
    ltac:(reflexivity) ltac:(apply Nat.ltb_lt; vm_compute; reflexivity))).
  vm_compute. reflexivity.
Defined.


Lemma insert_then_remove_no_cr_witness :
  match insert_char (of_ascii "ab
cd") {| x := 2; y := 0 |} 120%Z with
  | Some s' => remove_char s' {| x := 2; y := 0 |}
  | None => None
  end = Some (of_ascii "ab
cd").
Proof.
  apply insert_then_remove_no_cr.
  - reflexivity.
  - discriminate.
  - apply Nat.ltb_lt. vm_compute. reflexivity.
  - apply Nat.leb_le. vm_compute. reflexivity.
Defined.

End BufferExtras.

Module TokenShapeFacts.
Import Tokenizer TokenShape TokenizerFacts.

Lemma find_non_ws_spec s : forall n, find_non_ws s = Some n ->
  forallb is_whitespace (firstn n s) = true /\
  exists c r, skipn n s = c :: r /\ is_whitespace c = false.
Proof.
  induction s as [|c t IH]; intros n H; simpl in H; [discriminate|].
  destruct (is_whitespace c) eqn:W.
  - destruct (find_non_ws t) as [m|] eqn:E; simpl in H; [|discriminate].
    inversion H; subst. destruct (IH m eq_refl) as [H1 H2].
    simpl. rewrite W, H1. split; [reflexivity|exact H2].
  - inversion H; subst. split; [reflexivity|]. exists c, t. split; auto.
Qed.

Lemma find_non_ws_none s : find_non_ws s = None -> forallb is_whitespace s = true.
Proof.
  induction s as [|c t IH]; intros H; [reflexivity|]. simpl in *.
  destruct (is_whitespace c); [|discriminate].
  destruct (find_non_ws t); [discriminate|]. simpl. auto.
Qed.

Lemma try_rules_shape rl c t tok rest :
  rule_kinds_ok rl = true -> try_rules rl (c :: t) = Some (tok, rest) ->
  exists t', fst tok = c :: t' /\ SyntaxKind_eqb (snd tok) Whitespace = false /\
             (SyntaxKind_eqb (snd tok) Unknown = true -> t' = []).
Proof.
  induction rl as [|[re kind] rl IH]; intros Hk H; simpl in H; [discriminate|].
  unfold rule_kinds_ok in Hk. simpl in Hk. apply andb_prop in Hk as [Hk1 Hk2].
  destruct (re_find re (c :: t)) as [[[|b0] e]|]; try (apply IH; [exact Hk2|exact H]).
  revert H. destruct (Nat.eqb_spec e 0) as [->|He]; intros H; inversion H; subst; clear H.
  - exists []. simpl. auto.
  - destruct e as [|e]; [lia|]. exists (firstn e t). simpl.
    destruct kind; simpl in Hk1 |- *; try discriminate;
      (split; [reflexivity|split; [reflexivity|discriminate]]).
Qed.

Lemma ws_separated_cons tk toks :
  SyntaxKind_eqb (snd tk) Whitespace = false ->
  ws_separated (tk :: toks) = ws_separated toks.
Proof.
  destruct tk as [v k]. simpl. intros H.
  destruct toks as [|[v2 k2] toks]; [reflexivity|]. rewrite H. reflexivity.
Qed.

Lemma token_ok_nonws c t' k :
  is_whitespace c = false -> SyntaxKind_eqb k Whitespace = false ->
  (SyntaxKind_eqb k Unknown = true -> t' = []) -> token_ok (c :: t', k) = true.
Proof.
  intros Hc Hk Hu. simpl. rewrite Hk, Hc. simpl.
  destruct (SyntaxKind_eqb k Unknown); [rewrite Hu by reflexivity|]; reflexivity.
Qed.

Lemma parse_loop_shapes rs : forall f s toks,
  parse_loop rs f s = Some toks ->
  forallb token_ok toks = true /\ ws_separated toks = true /\
  match s with
  | [] => toks = []
  | c :: _ => exists t' k rest, toks = (c :: t', k) :: rest
  end.
Proof.
  induction f as [|f IH]; intros s toks H.
  - destruct s; simpl in H; [|discriminate]. inversion H; subst. auto.
  - destruct s as [|c t]; [simpl in H; inversion H; subst; auto|].
    cbn [parse_loop] in H.
    destruct (find_non_ws (c :: t)) as [n|] eqn:Ews.
    + destruct (find_non_ws_spec _ _ Ews) as [Hws (c' & r & Hsk & Hc')].
      destruct (Nat.ltb_spec 0 n) as [Hn|Hn].
      * destruct (parse_loop rs f (skipn n (c :: t))) as [toks'|] eqn:E;
          simpl in H; [|discriminate]. inversion H; subst; clear H.
        destruct (IH _ _ E) as (H1 & H2 & H3). rewrite Hsk in H3.
        destruct H3 as (t' & k & rest & ->).
        simpl in H1. apply andb_prop in H1 as [Htk Hrest].
        assert (Hk : SyntaxKind_eqb k Whitespace = false).
        { destruct (SyntaxKind_eqb k Whitespace) eqn:K; [|reflexivity].
          rewrite Hc' in Htk. discriminate. }
        destruct n as [|n]; [lia|].
        split; [|split].
        -- simpl. simpl in Hws. rewrite Hws, Htk, Hrest. reflexivity.
        -- change (negb (SyntaxKind_eqb Whitespace Whitespace && SyntaxKind_eqb k Whitespace)
                   && ws_separated ((c' :: t', k) :: rest) = true).
           rewrite Hk, H2. reflexivity.
        -- simpl. eauto.
      * assert (n = 0) by lia. subst n. simpl in Hsk. inversion Hsk; subst c' r.
        destruct (try_rules (rules rs) (c :: t)) as [[tok rest]|] eqn:Er.
        -- destruct (parse_loop rs f rest) as [toks'|] eqn:E; simpl in H; [|discriminate].
           inversion H; subst; clear H.
           destruct (IH _ _ E) as (H1 & H2 & _).
           destruct (try_rules_shape (rules rs) _ _ _ _ eq_refl Er) as (t' & Ht' & Hk & Hu).
           split; [|split].
           ++ simpl. rewrite H1, andb_true_r. destruct tok as [v k]. simpl in *.
              subst v. apply token_ok_nonws; assumption.
           ++ rewrite ws_separated_cons by exact Hk. exact H2.
           ++ destruct tok as [v k]. simpl in Ht'. subst v. eauto.
        -- destruct (parse_loop rs f (skipn 1 (c :: t))) as [toks'|] eqn:E;
             simpl in H; [|discriminate].
           inversion H; subst; clear H.
           destruct (IH _ _ E) as (H1 & H2 & _).
           split; [|split].
           ++ simpl. rewrite H1, Hc'. reflexivity.
           ++ rewrite ws_separated_cons by reflexivity. exact H2.
           ++ simpl. eauto.
    + inversion H; subst; clear H. apply find_non_ws_none in Ews.
      split; [|split].
      * simpl. rewrite andb_true_r. exact Ews.
      * reflexivity.
      * eauto.
Qed.

End TokenShapeFacts.

Module TokenizerExtras.
Import Tokenizer TokenShape TokenizerFacts TokenShapeFacts.

(** Extra: for any rule set, [parse] emits only well-shaped tokens: each
    is non-empty, a [Whitespace] token is all whitespace, every other
    token starts with a non-whitespace character, an [Unknown] token is a
    single character, and no two [Whitespace] tokens are adjacent. *)
Theorem parse_token_shapes rs text :
  exists toks, parse rs text = Some toks /\
               forallb token_ok toks = true /\ ws_separated toks = true.
Proof.
  destruct (parse_loop_total rs (length text) text (le_n _)) as (toks & E & _ & _).
  exists toks. unfold parse. rewrite E. split; [reflexivity|].
  destruct (parse_loop_shapes _ _ _ _ E) as (H1 & H2 & _). auto.
Qed.

End TokenizerExtras.

Module RenderExtras.
Import Tokenizer TokenizerFacts Render.

Lemma flat_map_fst_colour th toks :
  flat_map fst (map (fun '(v, k) => (v, kind_colour th k)) toks) = tokens_text toks.
Proof.
  induction toks as [|[v k] toks IH]; [reflexivity|]. simpl. rewrite IH. reflexivity.
Qed.

(** Extra: [colour_text] renders one line per line of the text, and the
    spans of each rendered line spell that line out. *)
Theorem colour_text_lossless text th syntax :
  exists out, colour_text text th syntax = Some out /\
              map (flat_map fst) out = Buffer.lines text.
Proof.
  unfold colour_text. induction (Buffer.lines text) as [|l ls IH].
  - exists []. split; reflexivity.
  - destruct IH as (out & E & Hm).
    destruct (parse_loop_total syntax (length l) l (le_n _)) as (toks & Ep & Ht & _).
    exists (map (fun '(v, k) => (v, kind_colour th k)) toks :: out).
    simpl. unfold colour_line, parse. rewrite Ep, E. simpl.
    split; [reflexivity|]. rewrite flat_map_fst_colour, Ht, Hm. reflexivity.
Qed.

(** Extra: [colour_text] never reads the theme's [background]: any
    other background colour renders the same spans. *)
Theorem colour_text_ignores_background text th syntax c :
  colour_text text th syntax =
  colour_text text
    {| Theme.keyword := Theme.keyword th; Theme.ident := Theme.ident th;
       Theme.lit := Theme.lit th; Theme.delim := Theme.delim th;
       Theme.types := Theme.types th; Theme.extra := Theme.extra th;
       Theme.background := c; Theme.function := Theme.function th;
       Theme.comment := Theme.comment th |} syntax.
Proof.
  unfold colour_text. induction (Buffer.lines text) as [|l ls IH]; [reflexivity|].
  simpl. rewrite IH. unfold colour_line.
  destruct (parse syntax l) as [toks|]; [|reflexivity]. simpl.
  erewrite map_ext; [reflexivity|]. intros [v k]. destruct k; reflexivity.
Qed.

End RenderExtras.

Module ThemeFacts.
Import Theme BufferFacts.

Lemma to_digit16_hex d : (0 <= d < 16)%Z -> to_digit16 (hex_char d) = Some d.
Proof.
  intros H.
  assert (d = 0 \/ d = 1 \/ d = 2 \/ d = 3 \/ d = 4 \/ d = 5 \/ d = 6 \/ d = 7 \/
          d = 8 \/ d = 9 \/ d = 10 \/ d = 11 \/ d = 12 \/ d = 13 \/ d = 14 \/ d = 15)%Z
    as Hd by lia.
  repeat destruct Hd as [->|Hd]; try reflexivity; subst; reflexivity.
Qed.

Lemma hex_char_range d : (0 <= d < 16)%Z -> (48 <= hex_char d <= 102)%Z.
Proof. unfold hex_char. intros H. destruct (Z.ltb_spec d 10); lia. Qed.

Lemma to_digit16_range c v : to_digit16 c = Some v -> (0 <= v < 16)%Z.
Proof.
  unfold to_digit16, in_range. intros H.
  destruct (Z.leb_spec 48 c); destruct (Z.leb_spec c 57); simpl in H;
    try (inversion H; subst; lia);
    destruct (Z.leb_spec 97 (Z.lor c 32)); destruct (Z.leb_spec (Z.lor c 32) 102);
    simpl in H; inversion H; subst; lia.
Qed.

Lemma hex_digits n : (0 <= n < 256)%Z ->
  (0 <= n / 16 < 16)%Z /\ (0 <= n mod 16 < 16)%Z /\ (n / 16 * 16 + n mod 16 = n)%Z.
Proof. intros H. Z.div_mod_to_equations. lia. Qed.

Lemma u8_hex2 n : (0 <= n < 256)%Z -> u8_from_str_radix16 (hex2 n) = Some n.
Proof.
  intros H. destruct (hex_digits n H) as (H1 & H2 & H3).
  unfold hex2, u8_from_str_radix16.
  pose proof (hex_char_range _ H1).
  replace (hex_char (n / 16) =? 43)%Z with false by (symmetry; apply Z.eqb_neq; lia).
  cbn [digits_acc]. rewrite (to_digit16_hex _ H1), (to_digit16_hex _ H2).
  replace (0 * 16 + n / 16 <? 256)%Z with true by (symmetry; apply Z.ltb_lt; lia).
  replace (0 * 16 + n / 16)%Z with (n / 16)%Z by lia.
  replace (n / 16 * 16 + n mod 16 <? 256)%Z with true by (symmetry; apply Z.ltb_lt; lia).
  rewrite H3. reflexivity.
Qed.

Lemma byte_len_hex2 n : (0 <= n < 256)%Z -> byte_len (hex2 n) = 2.
Proof.
  intros H. destruct (hex_digits n H) as (H1 & H2 & _).
  pose proof (hex_char_range _ H1). pose proof (hex_char_range _ H2).
  unfold hex2. simpl. unfold utf8_len.
  rewrite (proj2 (Z.ltb_lt (hex_char (n / 16)) 128)) by lia.
  rewrite (proj2 (Z.ltb_lt (hex_char (n mod 16)) 128)) by lia.
  reflexivity.
Qed.

Lemma parse_channel_hex s pre n post lo hi k :
  s = pre ++ hex2 n ++ post -> byte_len pre = lo -> hi = S lo -> (0 <= n < 256)%Z ->
  parse_channel s lo hi k = k n.
Proof.
  intros -> <- -> H. unfold parse_channel, str_slice.
  rewrite split_at_byte_app.
  replace (S (S (byte_len pre)) - byte_len pre) with (byte_len (hex2 n))
    by (rewrite byte_len_hex2 by exact H; lia).
  rewrite split_at_byte_app, u8_hex2 by exact H. reflexivity.
Qed.

Lemma split_at_byte_some s : forall n a rest,
  Buffer.split_at_byte s n = Some (a, rest) -> s = a ++ rest /\ byte_len a = n.
Proof.
  induction s as [|c t IH]; intros n a rest H.
  - destruct n; simpl in H; inversion H; subst; auto.
  - destruct n as [|n]; [simpl in H; inversion H; subst; auto|].
    cbn [Buffer.split_at_byte] in H.
    destruct (Nat.ltb_spec (S n) (utf8_len c)); [discriminate|].
    destruct (Buffer.split_at_byte t (S n - utf8_len c)) as [[a' r']|] eqn:E;
      [|discriminate].
    simpl in H. inversion H; subst. apply IH in E as [-> E].
    split; [reflexivity|]. simpl. lia.
Qed.

Lemma str_slice_some s lo hi m :
  str_slice s lo hi = Some m -> lo + (S hi - lo) <= byte_len s.
Proof.
  unfold str_slice.
  destruct (Buffer.split_at_byte s lo) as [[a rest]|] eqn:E1; [|discriminate].
  destruct (Buffer.split_at_byte rest (S hi - lo)) as [[mid post]|] eqn:E2; [|discriminate].
  intros _. apply split_at_byte_some in E1 as [-> E1].
  apply split_at_byte_some in E2 as [-> E2].
  rewrite !byte_len_app. lia.
Qed.

Lemma digits_acc_range ds : forall acc v,
  (0 <= acc < 256)%Z -> digits_acc acc ds = Some v -> (0 <= v < 256)%Z.
Proof.
  induction ds as [|d ds IH]; intros acc v Hacc H; cbn [digits_acc] in H.
  - inversion H; subst; exact Hacc.
  - destruct (to_digit16 d) as [w|] eqn:Ed; [|discriminate].
    apply to_digit16_range in Ed.
    destruct (Z.ltb_spec (acc * 16 + w) 256); [|discriminate].
    apply (IH (acc * 16 + w)%Z); [lia|exact H].
Qed.

Lemma u8_range src v : u8_from_str_radix16 src = Some v -> (0 <= v < 256)%Z.
Proof.
  unfold u8_from_str_radix16. intros H.
  destruct src as [|c [|d t]]; [discriminate| |].
  - destruct ((c =? 43)%Z || (c =? 45)%Z); [discriminate|].
    exact (digits_acc_range _ 0 v ltac:(lia) H).
  - destruct (c =? 43)%Z; exact (digits_acc_range _ 0 v ltac:(lia) H).
Qed.

End ThemeFacts.

Module ThemeExtras.
Import Theme ThemeFacts.

(** Extra: every colour written as six lowercase hex digits, with or
    without a leading ['#'], parses back to its channels, whatever text
    follows the digits. *)
Theorem colour_from_str_hex r0 g0 b0 rest :
  (0 <= r0 < 256)%Z -> (0 <= g0 < 256)%Z -> (0 <= b0 < 256)%Z ->
  colour_from_str (35%Z :: hex2 r0 ++ hex2 g0 ++ hex2 b0 ++ rest) =
    Ok {| r := r0; g := g0; b := b0 |} /\
  colour_from_str (hex2 r0 ++ hex2 g0 ++ hex2 b0 ++ rest) =
    Ok {| r := r0; g := g0; b := b0 |}.
Proof.
  intros Hr Hg Hb.
  pose proof (byte_len_hex2 _ Hr) as Lr. pose proof (byte_len_hex2 _ Hg) as Lg.
  split.
  - unfold colour_from_str.
    replace (starts_with_hash _) with true by reflexivity.
    rewrite (parse_channel_hex _ [35%Z] r0 (hex2 g0 ++ hex2 b0 ++ rest) 1 2)
      by (reflexivity || exact Hr). cbv beta.
    rewrite (parse_channel_hex _ ([35%Z] ++ hex2 r0) g0 (hex2 b0 ++ rest) 3 4)
      by (reflexivity || exact Hg || (rewrite BufferFacts.byte_len_app, Lr; reflexivity)
          || (rewrite <- app_assoc; reflexivity)). cbv beta.
    rewrite (parse_channel_hex _ ([35%Z] ++ hex2 r0 ++ hex2 g0) b0 rest 5 6)
      by (reflexivity || exact Hb
          || (rewrite !BufferFacts.byte_len_app, Lr, Lg; reflexivity)
          || (rewrite <- !app_assoc; reflexivity)).
    reflexivity.
  - unfold colour_from_str.
    destruct (hex_digits r0 Hr) as (H1 & _).
    pose proof (hex_char_range _ H1).
    replace (starts_with_hash _) with false
      by (symmetry; apply Z.eqb_neq; unfold hex2; simpl; lia).
    rewrite (parse_channel_hex _ [] r0 (hex2 g0 ++ hex2 b0 ++ rest) 0 1)
      by (reflexivity || exact Hr). cbv beta.
    rewrite (parse_channel_hex _ (hex2 r0) g0 (hex2 b0 ++ rest) 2 3)
      by (reflexivity || exact Hg || exact Lr). cbv beta.
    rewrite (parse_channel_hex _ (hex2 r0 ++ hex2 g0) b0 rest 4 5)
      by (reflexivity || exact Hb || (rewrite BufferFacts.byte_len_app, Lr, Lg; reflexivity)
          || (rewrite <- app_assoc; reflexivity)).
    reflexivity.
Qed.

Lemma colour_from_str_hex_witness :
  colour_from_str (of_ascii "#ff8000") = Ok {| r := 255; g := 128; b := 0 |} /\
  colour_from_str (of_ascii "ff8000") = Ok {| r := 255; g := 128; b := 0 |}.
Proof.
  exact (colour_from_str_hex 255 128 0 [] ltac:(lia) ltac:(lia) ltac:(lia)).
Defined.

(** Extra: [Colour::from_str] succeeds only on at least seven bytes
    after a ['#'], or six otherwise; shorter input panics or fails. Every
    channel it returns is a byte. *)
Theorem colour_from_str_ok s c :
  colour_from_str s = Ok c ->
  (if starts_with_hash s then 7 else 6) <= byte_len s /\
  (0 <= r c < 256)%Z /\ (0 <= g c < 256)%Z /\ (0 <= b c < 256)%Z.
Proof.
  unfold colour_from_str, parse_channel.
  destruct (starts_with_hash s).
  - destruct (str_slice s 1 2) as [t1|] eqn:S1; [|intros H; discriminate H];
    destruct (u8_from_str_radix16 t1) as [v1|] eqn:U1; [|intros H; discriminate H]; cbv beta;
    destruct (str_slice s 3 4) as [t2|] eqn:S2; [|intros H; discriminate H];
    destruct (u8_from_str_radix16 t2) as [v2|] eqn:U2; [|intros H; discriminate H]; cbv beta;
    destruct (str_slice s 5 6) as [t3|] eqn:S3; [|intros H; discriminate H];
    destruct (u8_from_str_radix16 t3) as [v3|] eqn:U3; [|intros H; discriminate H]; cbv beta;
    intros H; inversion H; subst; clear H.
    apply str_slice_some in S3; apply u8_range in U1; apply u8_range in U2;
      apply u8_range in U3. simpl. repeat split; lia.
  - destruct (str_slice s 0 1) as [t1|] eqn:S1; [|intros H; discriminate H];
    destruct (u8_from_str_radix16 t1) as [v1|] eqn:U1; [|intros H; discriminate H]; cbv beta;
    destruct (str_slice s 2 3) as [t2|] eqn:S2; [|intros H; discriminate H];
    destruct (u8_from_str_radix16 t2) as [v2|] eqn:U2; [|intros H; discriminate H]; cbv beta;
    destruct (str_slice s 4 5) as [t3|] eqn:S3; [|intros H; discriminate H];
    destruct (u8_from_str_radix16 t3) as [v3|] eqn:U3; [|intros H; discriminate H]; cbv beta;
    intros H; inversion H; subst; clear H.
    apply str_slice_some in S3; apply u8_range in U1; apply u8_range in U2;
      apply u8_range in U3. simpl. repeat split; lia.
Qed.

Lemma colour_from_str_ok_witness :
  7 <= byte_len (of_ascii "#ff8000") /\ (0 <= 255 < 256)%Z.
Proof.
  destruct (colour_from_str_ok (of_ascii "#ff8000") {| r := 255; g := 128; b := 0 |}
              ltac:(reflexivity)) as (H1 & H2 & _).
  split; [exact H1|exact H2].
Defined.

(** Extra: on two characters, [u8::from_str_radix(_, 16)] reads two hex
    digits, or, after a ['+'], a single one: ["+f"] is 15. *)
Theorem u8_from_str_radix16_two a d v :
  u8_from_str_radix16 [a; d] = Some v <->
  (a = 43%Z /\ to_digit16 d = Some v) \/
  (exists da dd, to_digit16 a = Some da /\ to_digit16 d = Some dd /\ v = (16 * da + dd)%Z).
Proof.
  unfold u8_from_str_radix16. cbn [digits_acc].
  destruct (Z.eqb_spec a 43) as [->|Ha].
  - cbn [digits_acc].
    destruct (to_digit16 d) as [w|] eqn:Ed.
    + pose proof (to_digit16_range _ _ Ed) as Rd.
      replace (0 * 16 + w <? 256)%Z with true by (symmetry; apply Z.ltb_lt; lia).
      replace (0 * 16 + w)%Z with w by lia.
      split.
      * intros H. inversion H; subst. left. auto.
      * intros [[_ H]|(da & dd & Hda & _)]; [congruence|discriminate].
    + split; [discriminate|].
      intros [[_ H]|(da & dd & Hda & _)]; [discriminate|discriminate].
  - destruct (to_digit16 a) as [wa|] eqn:Ea.
    + pose proof (to_digit16_range _ _ Ea) as Ra.
      replace (0 * 16 + wa <? 256)%Z with true by (symmetry; apply Z.ltb_lt; lia).
      destruct (to_digit16 d) as [wd|] eqn:Ed.
      * pose proof (to_digit16_range _ _ Ed) as Rd.
        replace ((0 * 16 + wa) * 16 + wd <? 256)%Z with true
          by (symmetry; apply Z.ltb_lt; lia).
        split.
        -- intros H. inversion H; subst. right. exists wa, wd. repeat split. lia.
        -- intros [[H _]|(da & dd & H1 & H2 & ->)]; [contradiction|].
           inversion H1; inversion H2; subst. f_equal. lia.
      * split; [discriminate|].
        intros [[H _]|(da & dd & _ & H2 & _)]; [contradiction|discriminate].
    + split; [discriminate|].
      intros [[H _]|(da & dd & H1 & _)]; [contradiction|discriminate].
Qed.

End ThemeExtras.

Module EditorFacts.
Import Buffer Editor.

#[local] Arguments move_cursor : simpl never.
#[local] Arguments move_to_end_of_pat : simpl never.
#[local] Arguments move_to_start_of_pat : simpl never.

Ltac case_all :=
  repeat match goal with
         | |- context [match ?x with _ => _ end] => destruct x eqn:?
         end.

Lemma move_cursor_keeps e d :
  keyhistory (move_cursor e d) = keyhistory e /\ file_path (move_cursor e d) = file_path e /\
  file_text (move_cursor e d) = file_text e /\ mode (move_cursor e d) = mode e.
Proof.
  unfold move_cursor, clamp_column, move_to_previous_line, move_to_next_line.
  destruct d; case_all; simpl; auto.
Qed.

Lemma move_to_end_of_pat_keeps e p :
  keyhistory (move_to_end_of_pat e p) = keyhistory e /\
  file_path (move_to_end_of_pat e p) = file_path e /\
  file_text (move_to_end_of_pat e p) = file_text e.
Proof. unfold move_to_end_of_pat. case_all; simpl; auto. Qed.

Lemma move_to_start_of_pat_keeps e p :
  keyhistory (move_to_start_of_pat e p) = keyhistory e /\
  file_path (move_to_start_of_pat e p) = file_path e /\
  file_text (move_to_start_of_pat e p) = file_text e.
Proof. unfold move_to_start_of_pat. case_all; simpl; auto. Qed.

Lemma handle_normal_char_keeps gc e c e' :
  handle_normal_char gc e c = Some e' ->
  keyhistory e' = keyhistory e /\ file_path e' = file_path e /\
  (c <> chr "d" -> c <> chr "o" -> c <> chr "O" -> file_text e' = file_text e).
Proof.
  unfold handle_normal_char, option_map. case_all; intros H; inversion H; subst; clear H; simpl;
    repeat match goal with
           | |- context [move_cursor ?a ?b] =>
               destruct (move_cursor_keeps a b) as (-> & -> & -> & _)
           | |- context [move_to_end_of_pat ?a ?b] =>
               destruct (move_to_end_of_pat_keeps a b) as (-> & -> & ->)
           | |- context [move_to_start_of_pat ?a ?b] =>
               destruct (move_to_start_of_pat_keeps a b) as (-> & -> & ->)
           end; simpl;
    repeat split; auto;
    try match goal with
    | E : (c =? ?d)%Z = true |- _ => apply Z.eqb_eq in E; intros; subst; tauto
    end.
Qed.

Lemma execute_command_keeps fc wa e e' :
  execute_command fc wa e = Some e' ->
  keyhistory e' = keyhistory e /\ file_path e' = file_path e /\ file_text e' = file_text e.
Proof.
  unfold execute_command, option_map. intros H.
  match type of H with
  | (match ?r with _ => _ end) = _ => destruct r as [e0|] eqn:R; [|discriminate]
  end.
  inversion H; subst; clear H. revert R.
  case_all; intros R; inversion R; subst; simpl; auto.
Qed.

Lemma handle_key_event_keeps fc wa gc e k e' :
  handle_key_event fc wa gc e k = Some e' ->
  keyhistory e' = keyhistory e ++ [k] /\ file_path e' = file_path e /\
  (mode e <> Insert ->
   (forall c, k = Char c -> c <> chr "d" /\ c <> chr "o" /\ c <> chr "O") ->
   file_text e' = file_text e).
Proof.
  unfold handle_key_event.
  destruct (mode e) eqn:Hm; destruct k as [c| | | |];
    try (destruct (handle_normal_char gc e c) as [e1|] eqn:En;
         [apply handle_normal_char_keeps in En as (Hk & Hp & Ht)|]);
    try (destruct (execute_command fc wa e) as [e1|] eqn:Ex;
         [apply execute_command_keeps in Ex as (Hk & Hp & Ht)|]);
    case_all; simpl; intros H; inversion H; subst; clear H; simpl;
    repeat match goal with
           | |- context [move_cursor ?a ?b] =>
               destruct (move_cursor_keeps a b) as (-> & -> & -> & _)
           end; simpl;
    repeat split; auto; try congruence;
    intros Hi Hc; try (exfalso; apply Hi; reflexivity);
    try (destruct (Hc c eq_refl) as (? & ? & ?); auto).
Qed.

Lemma last_key_push l k : last_key (l ++ [k]) = Some k.
Proof. unfold last_key. rewrite rev_app_distr. reflexivity. Qed.

Lemma nth_line_nth ls : forall n, nth_line ls (Z.of_nat n) = nth n ls [].
Proof.
  induction ls as [|l ls IH]; intros n; [destruct n; reflexivity|].
  destruct n as [|n]; [reflexivity|]. cbn [nth_line nth].
  rewrite (proj2 (Z.eqb_neq _ _)) by lia.
  replace (Z.of_nat (S n) - 1)%Z with (Z.of_nat n) by lia. apply IH.
Qed.

Lemma byte_len_ge_length s : length s <= byte_len s.
Proof.
  induction s as [|c t IH]; simpl; [lia|].
  pose proof (BufferFacts.utf8_len_pos c). lia.
Qed.

Lemma set_cursor_cursor e : set_cursor e (cursor e) = e.
Proof. destruct e; reflexivity. Qed.

Lemma set_cursor_twice e p q : set_cursor (set_cursor e p) q = set_cursor e q.
Proof. reflexivity. Qed.

End EditorFacts.

Module HandlerExtras.
Import Buffer Editor EditorFacts.

(** Extra: a handled key event only appends its key to [keyhistory],
    and never changes [file_path]. *)
Theorem handle_key_event_history fc wa gc e k e' :
  handle_key_event fc wa gc e k = Some e' ->
  keyhistory e' = keyhistory e ++ [k] /\ file_path e' = file_path e.
Proof. intros H. destruct (handle_key_event_keeps _ _ _ _ _ _ H) as (H1 & H2 & _). auto. Qed.

Lemma handle_key_event_history_witness :
  exists e', handle_key_event (fun _ => true) (fun _ _ => true) ascii_gc
               (mk_editor (of_ascii "ab") {| x := 0; y := 0 |} Normal [])
               (Char (chr "l")) = Some e' /\
             keyhistory e' = [Char (chr "l")].
Proof.
  eexists. split; [reflexivity|].
  exact (proj1 (handle_key_event_history (fun _ => true) (fun _ _ => true) ascii_gc
                  (mk_editor (of_ascii "ab") {| x := 0; y := 0 |} Normal [])
                  (Char (chr "l")) _ eq_refl)).
Defined.

(** Extra: outside Insert mode only the Normal-mode keys ['d'], ['o']
    and ['O'] can change the text. *)
Theorem handle_key_event_text_unchanged fc wa gc e k e' :
  mode e <> Insert ->
  (forall c, k = Char c -> c <> chr "d" /\ c <> chr "o" /\ c <> chr "O") ->
  handle_key_event fc wa gc e k = Some e' ->
  file_text e' = file_text e.
Proof.
  intros Hm Hk H. destruct (handle_key_event_keeps _ _ _ _ _ _ H) as (_ & _ & H3). auto.
Qed.

Lemma handle_key_event_text_unchanged_witness :
  exists e', handle_key_event (fun _ => true) (fun _ _ => true) ascii_gc
               (mk_editor (of_ascii "ab") {| x := 0; y := 0 |} Normal [])
               (Char (chr "j")) = Some e' /\
             file_text e' = of_ascii "ab".
Proof.
  eexists. split; [reflexivity|].
  apply (handle_key_event_text_unchanged (fun _ => true) (fun _ _ => true) ascii_gc
           (mk_editor (of_ascii "ab") {| x := 0; y := 0 |} Normal []) (Char (chr "j"))).
  - discriminate.
  - intros c Hc. injection Hc as <-. repeat split; discriminate.
  - reflexivity.
Defined.

Lemma handle_g fc wa gc e :
  mode e = Normal ->
  handle_key_event fc wa gc e (Char (chr "g")) =
  Some (push_key (match last_key (keyhistory e) with
                  | Some (Char g) => if (g =? chr "g")%Z then set_cursor e {| x := 0; y := 0 |}
                                     else e
                  | _ => e
                  end) (Char (chr "g"))).
Proof.
  intros Hm. unfold handle_key_event. rewrite Hm.
  replace (handle_normal_char gc e (chr "g")) with
    (match last_key (keyhistory e) with
     | Some (Char g) => if (g =? chr "g")%Z then Some (set_cursor e {| x := 0; y := 0 |})
                        else Some e
     | _ => Some e
     end) by reflexivity.
  destruct (last_key (keyhistory e)) as [[g| | | |]|]; try reflexivity.
  destruct (g =? chr "g")%Z; reflexivity.
Qed.

(** Extra: in Normal mode, ['g'] pressed twice moves the cursor to the
    top-left corner, whatever came before. *)
Theorem gg_goes_to_top fc wa gc e :
  mode e = Normal ->
  match handle_key_event fc wa gc e (Char (chr "g")) with
  | Some e1 => option_map cursor (handle_key_event fc wa gc e1 (Char (chr "g")))
  | None => None
  end = Some {| x := 0; y := 0 |}.
Proof.
  intros Hm. rewrite (handle_g _ _ _ _ Hm).
  set (X := match last_key (keyhistory e) with
            | Some (Char g) => if (g =? chr "g")%Z then set_cursor e {| x := 0; y := 0 |}
                               else e
            | _ => e
            end).
  assert (HX : mode (push_key X (Char (chr "g"))) = Normal).
  { unfold X. destruct (last_key (keyhistory e)) as [[g| | | |]|]; simpl; auto.
    destruct (g =? chr "g")%Z; simpl; auto. }
  rewrite (handle_g _ _ _ _ HX).
  replace (keyhistory (push_key X (Char (chr "g")))) with (keyhistory X ++ [Char (chr "g")])
    by reflexivity.
  rewrite last_key_push. reflexivity.
Qed.

Lemma gg_goes_to_top_witness :
  match handle_key_event (fun _ => true) (fun _ _ => true) ascii_gc
          (mk_editor (of_ascii "ab
cd") {| x := 1; y := 1 |} Normal []) (Char (chr "g")) with
  | Some e1 => option_map cursor
                 (handle_key_event (fun _ => true) (fun _ _ => true) ascii_gc e1 (Char (chr "g")))
  | None => None
  end = Some {| x := 0; y := 0 |}.
Proof. apply gg_goes_to_top. reflexivity. Defined.

(** Extra: in Command mode, typing a character and then Backspace gives
    the command line back, still in Command mode. *)
Theorem command_char_backspace fc wa gc e c :
  mode e = Command ->
  match handle_key_event fc wa gc e (Char c) with
  | Some e1 => option_map (fun e2 => (command e2, mode e2))
                 (handle_key_event fc wa gc e1 Backspace)
  | None => None
  end = Some (command e, Command).
Proof.
  intros Hm. unfold handle_key_event. rewrite Hm. simpl. rewrite !Hm. simpl.
  rewrite removelast_last, Hm. reflexivity.
Qed.

Lemma command_char_backspace_witness :
  match handle_key_event (fun _ => true) (fun _ _ => true) ascii_gc
          (mk_editor [] {| x := 0; y := 0 |} Command (of_ascii "th")) (Char (chr "e")) with
  | Some e1 => option_map (fun e2 => (command e2, mode e2))
                 (handle_key_event (fun _ => true) (fun _ _ => true) ascii_gc e1 Backspace)
  | None => None
  end = Some (of_ascii "th", Command).
Proof. apply command_char_backspace. reflexivity. Defined.

(** Extra: Esc never fails: it returns to Normal mode from every mode,
    keeps the text and the cursor, and clears the command line when it
    leaves Command mode. *)
Theorem esc_to_normal fc wa gc e :
  exists e', handle_key_event fc wa gc e Esc = Some e' /\ mode e' = Normal /\
             file_text e' = file_text e /\ cursor e' = cursor e /\
             command e' = match mode e with Command => [] | _ => command e end.
Proof.
  unfold handle_key_event.
  destruct (mode e) eqn:Hm; eexists; (split; [reflexivity|]); simpl; rewrite ?Hm;
    repeat split; reflexivity.
Qed.

(** Extra: the command [theme NAME] (surrounding whitespace trimmed)
    sets the theme path to [theme/NAME.toml], returns to Normal mode with
    an empty command line and keeps the text. *)
Theorem theme_command fc wa gc e name :
  mode e = Command -> trim (command e) = of_ascii "theme " ++ name ->
  option_map (fun e' => (theme_path e', mode e', command e', file_text e'))
    (handle_key_event fc wa gc e Enter) =
  Some (of_ascii "theme/" ++ name ++ of_ascii ".toml", Normal, [], file_text e).
Proof.
  intros Hm Ht. unfold handle_key_event. rewrite Hm. unfold execute_command. rewrite Ht.
  reflexivity.
Qed.

Lemma theme_command_witness :
  option_map (fun e' => (theme_path e', mode e', command e', file_text e'))
    (handle_key_event (fun _ => true) (fun _ _ => true) ascii_gc
       (mk_editor [] {| x := 0; y := 0 |} Command (of_ascii " theme dark ")) Enter) =
  Some (of_ascii "theme/dark.toml", Normal, [], []).
Proof.
  exact (theme_command (fun _ => true) (fun _ _ => true) ascii_gc
           (mk_editor [] {| x := 0; y := 0 |} Command (of_ascii " theme dark "))
           (of_ascii "dark") eq_refl eq_refl).
Defined.

(** Extra: the command [q] (surrounding whitespace trimmed) sets the
    exit flag, returns to Normal mode with an empty command line and
    keeps the text. *)
Theorem quit_command fc wa gc e :
  mode e = Command -> trim (command e) = of_ascii "q" ->
  option_map (fun e' => (exit e', mode e', command e', file_text e'))
    (handle_key_event fc wa gc e Enter) =
  Some (true, Normal, [], file_text e).
Proof.
  intros Hm Ht. unfold handle_key_event. rewrite Hm. unfold execute_command. rewrite Ht.
  reflexivity.
Qed.

Lemma quit_command_witness :
  option_map (fun e' => (exit e', mode e', command e', file_text e'))
    (handle_key_event (fun _ => true) (fun _ _ => true) ascii_gc
       (mk_editor (of_ascii "ab") {| x := 0; y := 0 |} Command (of_ascii "q ")) Enter) =
  Some (true, Normal, [], of_ascii "ab").
Proof. apply quit_command; reflexivity. Defined.

(** Extra: in Visual mode every key but ['v'] and Esc is ignored: only
    the key history grows. *)
Theorem visual_mode_inert fc wa gc e k :
  mode e = Visual -> k <> Esc -> k <> Char (chr "v") ->
  handle_key_event fc wa gc e k = Some (push_key e k).
Proof.
  intros Hm Hesc Hv. unfold handle_key_event. rewrite Hm.
  destruct k as [c| | | |]; try reflexivity; [|contradiction].
  destruct (Z.eqb_spec c (chr "v")) as [->|]; [contradiction|reflexivity].
Qed.

Lemma visual_mode_inert_witness :
  handle_key_event (fun _ => true) (fun _ _ => true) ascii_gc
    (mk_editor (of_ascii "ab") {| x := 0; y := 0 |} Visual []) (Char (chr "d")) =
  Some (push_key (mk_editor (of_ascii "ab") {| x := 0; y := 0 |} Visual []) (Char (chr "d"))).
Proof. apply visual_mode_inert; [reflexivity|discriminate|discriminate]. Defined.

(** Extra: ['A'] enters Insert mode with the cursor column set to the
    line's length in bytes, which is at or past its end in characters. *)
Theorem append_at_line_end fc wa gc e :
  mode e = Normal -> byte_len (line_at_cursor e) < 65536 ->
  option_map (fun e' => (mode e', cursor e', cursor_at_end_of_line e'))
    (handle_key_event fc wa gc e (Char (chr "A"))) =
  Some (Insert, {| x := byte_len (line_at_cursor e); y := y (cursor e) |}, true).
Proof.
  intros Hm Hb. unfold handle_key_event. rewrite Hm.
  replace (handle_normal_char gc e (chr "A")) with
    (Some (set_mode (set_cursor e {| x := u16_try_from (byte_len (line_at_cursor e));
                                     y := y (cursor e) |}) Insert)) by reflexivity.
  unfold u16_try_from. rewrite (proj2 (Nat.ltb_lt _ _) Hb).
  unfold cursor_at_end_of_line. simpl.
  replace (line_at_cursor _) with (line_at_cursor e) by reflexivity.
  rewrite (proj2 (Nat.leb_le _ _) (byte_len_ge_length _)). reflexivity.
Qed.

Lemma append_at_line_end_witness :
  option_map (fun e' => (mode e', cursor e', cursor_at_end_of_line e'))
    (handle_key_event (fun _ => true) (fun _ _ => true) ascii_gc
       (mk_editor [97; 233; 98]%Z {| x := 0; y := 0 |} Normal []) (Char (chr "A"))) =
  Some (Insert, {| x := 4; y := 0 |}, true).
Proof.
  apply (append_at_line_end (fun _ => true) (fun _ _ => true) ascii_gc
           (mk_editor [97; 233; 98]%Z {| x := 0; y := 0 |} Normal [])).
  - reflexivity.
  - apply Nat.ltb_lt. vm_compute. reflexivity.
Defined.

End HandlerExtras.

Module CursorExtras.
Import Buffer Editor EditorFacts.

Lemma u16_small n : n < 65536 -> u16 n = n.
Proof. intros H. unfold u16. apply Nat.mod_small. exact H. Qed.

(** Extra: inside a line, Right followed by Left gives back the editor
    unchanged. *)
Theorem right_then_left e :
  x (cursor e) < length (line_at_cursor e) -> S (x (cursor e)) < 65536 ->
  move_cursor (move_cursor e Right) Left = e.
Proof.
  intros H1 H2. unfold move_cursor at 2. unfold cursor_at_end_of_line at 1.
  rewrite (proj2 (Nat.leb_gt _ _) H1).
  rewrite Nat.add_1_r, u16_small by exact H2.
  unfold move_cursor, cursor_at_start_of_file, cursor_at_start_of_line. simpl.
  rewrite andb_false_r, Nat.sub_0_r.
  destruct e as [[cx cy] m t p kh ex cmd th mq]. reflexivity.
Qed.

Lemma right_then_left_witness :
  move_cursor (move_cursor (mk_editor (of_ascii "ab") {| x := 1; y := 0 |} Normal []) Right) Left
  = mk_editor (of_ascii "ab") {| x := 1; y := 0 |} Normal [].
Proof.
  apply right_then_left; apply Nat.ltb_lt; vm_compute; reflexivity.
Defined.

(** Extra: Left at column 0 of a line below the first moves to the end
    of the previous line (its length in characters, as [u16]). *)
Theorem left_at_line_start e :
  x (cursor e) = 0 -> 0 < y (cursor e) -> y (cursor e) < 65536 ->
  cursor (move_cursor e Left) =
  {| x := u16 (length (nth (y (cursor e) - 1) (lines (file_text e)) []));
     y := y (cursor e) - 1 |}.
Proof.
  intros Hx Hy0 Hy. unfold move_cursor, cursor_at_start_of_file, cursor_at_start_of_line.
  rewrite Hx, (proj2 (Nat.eqb_neq _ _)) by lia. simpl.
  unfold move_to_previous_line, line_from_cursor, u16_sub. cbn [cursor set_cursor]. f_equal.
  - f_equal. f_equal.
    assert (Hz : (Z.of_nat (y (cursor e)) < 65536)%Z).
    { assert (E : Z.of_nat 65536 = 65536%Z) by (apply Z.eqb_eq; vm_compute; reflexivity).
      apply Nat2Z.inj_lt in Hy. rewrite E in Hy. exact Hy. }
    rewrite Z.mod_small.
    + replace (Z.of_nat (y (cursor e)) + -1)%Z with (Z.of_nat (y (cursor e) - 1)) by lia.
      apply nth_line_nth.
    + change (2 ^ 64)%Z with 18446744073709551616%Z. lia.
  - replace (y (cursor e) + 65536 - 1) with ((y (cursor e) - 1) + 1 * 65536) by lia.
    rewrite Nat.Div0.mod_add. apply Nat.mod_small. lia.
Qed.

Lemma left_at_line_start_witness :
  cursor (move_cursor (mk_editor (of_ascii "abc
d") {| x := 0; y := 1 |} Normal []) Left) = {| x := 3; y := 0 |}.
Proof.
  exact (left_at_line_start (mk_editor (of_ascii "abc
d") {| x := 0; y := 1 |} Normal []) eq_refl
           (le_n 1) ltac:(apply Nat.ltb_lt; vm_compute; reflexivity)).
Defined.



(** Extra: ['b']'s motion, when the character before the cursor is of a
    word class: the cursor moves back over the run of characters of that
    class that ends at the cursor, and never before column 0. *)
Theorem word_start_motion gc e c t :
  rev (firstn (x (cursor e)) (line_at_cursor e)) = c :: t ->
  gc c <> Mark -> gc c <> Other -> x (cursor e) < 65536 ->
  run_len (fun d => gc_eqb (gc d) (gc c)) (c :: t) <= x (cursor e) /\
  cursor (move_to_start_of_pat e (word_pattern gc)) =
  {| x := x (cursor e) - run_len (fun d => gc_eqb (gc d) (gc c)) (c :: t);
     y := y (cursor e) |}.
Proof.
  intros Hs Hm Ho Hb.
  assert (Hle : run_len (fun d => gc_eqb (gc d) (gc c)) (c :: t) <= x (cursor e)).
  { eapply Nat.le_trans; [apply run_len_le|]. rewrite <- Hs, length_rev.
    apply (firstn_le_length (x (cursor e))). }
  split; [exact Hle|].
  unfold move_to_start_of_pat. rewrite Hs.
  cbn [re_find word_pattern unanchored an_match word_anchored leftmost_from].
  assert (Hw : word_match gc (c :: t) = Some (run_len (fun d => gc_eqb (gc d) (gc c)) (c :: t))).
  { unfold word_match. destruct (gc c); try reflexivity; contradiction. }
  rewrite Hw. cbn [cursor set_cursor]. rewrite Nat.add_0_l.
  rewrite (u16_small (run_len _ (c :: t))) by lia. reflexivity.
Qed.

Lemma word_start_motion_witness :
  cursor (move_to_start_of_pat (mk_editor (of_ascii "ab cd") {| x := 2; y := 0 |} Normal [])
            (word_pattern ascii_gc)) = {| x := 0; y := 0 |}.
Proof.
  exact (proj2 (word_start_motion ascii_gc
                  (mk_editor (of_ascii "ab cd") {| x := 2; y := 0 |} Normal [])
                  (chr "b") [chr "a"] eq_refl ltac:(discriminate) ltac:(discriminate)
                  ltac:(apply Nat.ltb_lt; vm_compute; reflexivity))).
Defined.

End CursorExtras.
